(** * swaggergenerator3: path merging, schema inference and reference matching

    A shallow embedding of [swaggergenerator3/paths.py] and of the
    [Generator] class of [swaggergenerator3/__init__.py], with the
    properties of the inference engine stated and proved over it.

    Conventions of the embedding.
    - A Python [str] is a [string]; characters are 8-bit code points
      (the Latin-1 range), which is where the predicates [str.isdigit]
      and [str.lower] are tabulated below.
    - A tuple of path components is a [list (option string)]: [None] is
      the parameter slot, [Some s] a literal segment.
    - A Python [dict] is an association list in insertion order with
      pairwise distinct keys; [dict_set] keeps the position of a key that
      is already present, as assignment to a Python dict does.
    - A Python exception is a value of [exn]; code that can raise returns
      a [result]. *)

From Stdlib Require Import String Ascii List Bool Arith ZArith Lia Permutation.
From Stdlib Require Import DecimalString Decimal.
Import ListNotations.

Set Warnings "-register-all".

Local Open Scope string_scope.
Local Open Scope list_scope.
Local Open Scope nat_scope.

(* ------------------------------------------------------------------ *)
(** ** Exceptions *)

Inductive exn : Type :=
| IndexError
| KeyError
| TypeError
| AttributeError
| EmptyExampleArrayError.

Inductive result (A : Type) : Type :=
| Ok (a : A)
| Raise (e : exn).

Arguments Ok {A} a.
Arguments Raise {A} e.

Definition bind {A B : Type} (r : result A) (k : A -> result B) : result B :=
  match r with
  | Ok a => k a
  | Raise e => Raise e
  end.

Notation "'let*' x ':=' r 'in' k" := (bind r (fun x => k))
  (at level 10, x name, r at level 100, k at level 200).

(* ------------------------------------------------------------------ *)
(** ** Python dictionaries as insertion-ordered association lists *)

Section Dict.
Context {V : Type}.

Fixpoint dict_get (d : list (string * V)) (k : string) : option V :=
  match d with
  | [] => None
  | (k', v) :: d' => if String.eqb k k' then Some v else dict_get d' k
  end.

Definition dict_mem (d : list (string * V)) (k : string) : bool :=
  match dict_get d k with Some _ => true | None => false end.

(** [d[k] = v] *)
Fixpoint dict_set (d : list (string * V)) (k : string) (v : V)
  : list (string * V) :=
  match d with
  | [] => [(k, v)]
  | (k', v') :: d' =>
      if String.eqb k k' then (k', v) :: d' else (k', v') :: dict_set d' k v
  end.

(** [d.pop(k)] for a key that may be absent: the entry is removed. *)
Fixpoint dict_remove (d : list (string * V)) (k : string)
  : list (string * V) :=
  match d with
  | [] => []
  | (k', v') :: d' =>
      if String.eqb k k' then d' else (k', v') :: dict_remove d' k
  end.
End Dict.

(* ------------------------------------------------------------------ *)
(** ** The string methods the generator uses *)

Module Str.

(** [s.split('/')]: never empty, one more segment than there are
    slashes. *)
Fixpoint split (s : string) : list string :=
  match s with
  | EmptyString => [EmptyString]
  | String c s' =>
      if Ascii.eqb c "/" then EmptyString :: split s'
      else match split s' with
           | seg :: rest => String c seg :: rest
           | [] => [String c EmptyString]
           end
  end.

(** ['/'.join(l)] *)
Fixpoint join (l : list string) : string :=
  match l with
  | [] => EmptyString
  | [x] => x
  | x :: rest => x ++ String "/" (join rest)
  end%string.

(** [str.isdigit] on the Latin-1 range: the decimal digits and the
    superscripts U+00B2, U+00B3 and U+00B9. *)
Definition isdigit_char (c : ascii) : bool :=
  let n := nat_of_ascii c in
  ((48 <=? n) && (n <=? 57)) || (n =? 178) || (n =? 179) || (n =? 185).

Fixpoint all_chars (p : ascii -> bool) (s : string) : bool :=
  match s with
  | EmptyString => true
  | String c s' => p c && all_chars p s'
  end.

Definition isdigit (s : string) : bool :=
  match s with
  | EmptyString => false
  | _ => all_chars isdigit_char s
  end.

(** [str.lower] on the Latin-1 range. *)
Definition lower_char (c : ascii) : ascii :=
  let n := nat_of_ascii c in
  if ((65 <=? n) && (n <=? 90))
     || ((192 <=? n) && (n <=? 222) && negb (n =? 215))
  then ascii_of_nat (n + 32) else c.

Fixpoint lower (s : string) : string :=
  match s with
  | EmptyString => EmptyString
  | String c s' => String (lower_char c) (lower s')
  end.

(** [needle in hay] for two strings. *)
Fixpoint contains (needle hay : string) : bool :=
  String.prefix needle hay
  || match hay with
     | EmptyString => false
     | String _ hay' => contains needle hay'
     end.

(** ["%s" % i] for a non-negative integer. *)
Definition of_nat (i : nat) : string :=
  NilEmpty.string_of_uint (Nat.to_uint i).

(** The tail of the regular expression [^{.+}$] after the opening
    brace: [.] is any character but a newline, and [$] accepts the end
    of the string or a final newline.  [seen] records that [.+] has
    consumed at least one character. *)
Fixpoint dot_plus_close (seen : bool) (s : string) : bool :=
  match s with
  | EmptyString => false
  | String c s' =>
      (seen && Ascii.eqb c "}"
       && (String.eqb s' EmptyString
           || String.eqb s' (String "010" EmptyString)))
      || (negb (Ascii.eqb c "010") && dot_plus_close true s')
  end.

(** [re.compile(r'^{.+}$').match(s)] as a truth value. *)
Definition param_pattern_match (s : string) : bool :=
  match s with
  | String c s' => Ascii.eqb c "{" && dot_plus_close false s'
  | EmptyString => false
  end.

End Str.

(* ------------------------------------------------------------------ *)
(** ** Values *)

(** An example body: a JSON value as Python holds it.  The payload of a
    number plays no part in inference beyond its truth value. *)
Inductive json : Type :=
| JNull
| JBool (b : bool)
| JNum (n : Z)
| JStr (s : string)
| JArr (items : list json)
| JObj (members : list (string * json)).

(** The dictionaries the generator builds (schemas, parameters,
    responses): a string, a boolean or a nested dictionary. *)
Inductive value : Type :=
| VStr (s : string)
| VBool (b : bool)
| VDict (entries : list (string * value)).

Definition pdict := list (string * value).

Definition value_eqb_str (v : value) (s : string) : bool :=
  match v with
  | VStr s' => String.eqb s' s
  | _ => false
  end.

(** [d[k]], raising [KeyError] for a missing key. *)
Definition getitem {V : Type} (d : list (string * V)) (k : string)
  : result V :=
  match dict_get d k with
  | Some v => Ok v
  | None => Raise KeyError
  end.

(** Sequencing a fallible function over a list, left to right. *)
Definition map_result {A B : Type} (f : A -> result B)
  : list A -> result (list B) :=
  fix go (l : list A) : result (list B) :=
    match l with
    | [] => Ok []
    | a :: l' =>
        let* b := f a in
        let* r := go l' in
        Ok (b :: r)
    end.

(** [d[k] = f(d[k])] for a key that is present; a dictionary without the
    key is returned as it is. *)
Definition dict_update_at {V : Type} (k : string) (f : V -> result V)
  : list (string * V) -> result (list (string * V)) :=
  fix go (d : list (string * V)) : result (list (string * V)) :=
    match d with
    | [] => Ok []
    | (k', v) :: d' =>
        if String.eqb k k' then
          let* v' := f v in Ok ((k', v') :: d')
        else
          let* r := go d' in Ok ((k', v) :: r)
    end.

(* ------------------------------------------------------------------ *)
(** ** paths.py *)

Module Paths.

(** One path component: [None] is a parameter slot. *)
Definition component := option string.
Definition components := list component.

Definition component_eqb (e1 e2 : component) : bool :=
  match e1, e2 with
  | None, None => true
  | Some a, Some b => String.eqb a b
  | _, _ => false
  end.

Fixpoint components_eqb (c1 c2 : components) : bool :=
  match c1, c2 with
  | [], [] => true
  | e1 :: t1, e2 :: t2 => component_eqb e1 e2 && components_eqb t1 t2
  | _, _ => false
  end.

Definition is_not_None (e : component) : bool :=
  match e with Some _ => true | None => false end.

(** The loop of [build_paramaterized_path]: [i] counts the slots seen
    so far, and a slot is rendered as [{param<i>}]. *)
Fixpoint render (i : nat) (cs : components) : list string :=
  match cs with
  | [] => []
  | None :: t =>
      ("{param" ++ Str.of_nat (S i) ++ "}")%string :: render (S i) t
  | Some s :: t => s :: render i t
  end.

Definition build_paramaterized_path (cs : components) : string :=
  String "/" (Str.join (render 0 cs)).

(** The loop [for e1, e2 in zip(c1, c2)] of [component_matches]: it
    returns [False] at the first pair with [e1 != e2 and e2 is not None]
    and [True] when [zip] is exhausted. *)
Fixpoint zip_loop (c1 c2 : components) : bool :=
  match c1, c2 with
  | e1 :: t1, e2 :: t2 =>
      if negb (component_eqb e1 e2) && is_not_None e2 then false
      else zip_loop t1 t2
  | _, _ => true
  end.

Definition component_matches (c1 c2 : components) : bool :=
  if negb (Nat.eqb (length c1) (length c2)) then false
  else zip_loop c1 c2.

(** [d.get(k, {})]; [d] is a dictionary unless an earlier step handed
    a leaf down. *)
Definition get_or_empty (d : value) (k : string) : result value :=
  match d with
  | VDict e =>
      Ok (match dict_get e k with Some x => x | None => VDict [] end)
  | _ => Raise AttributeError
  end.

(** [d[k] = v] *)
Definition setitem (d : value) (k : string) (v : value) : result value :=
  match d with
  | VDict e => Ok (VDict (dict_set e k v))
  | _ => Raise TypeError
  end.

(** [update_dict(d, u)], by recursion on [u]: the entries of [u] are
    visited in order; a dictionary entry is merged into [d.get(k, {})],
    any other entry overwrites [d[k]]. *)
Fixpoint update_dict_from (u : value) (d : value) {struct u}
  : result value :=
  match u with
  | VDict entries =>
      (fix loop (es : list (string * value)) (d : value) {struct es}
         : result value :=
         match es with
         | [] => Ok d
         | (k, v) :: es' =>
             match v with
             | VDict _ =>
                 let* sub := get_or_empty d k in
                 let* merged := update_dict_from v sub in
                 let* d' := setitem d k merged in
                 loop es' d'
             | _ =>
                 let* d' := setitem d k v in
                 loop es' d'
             end
         end) entries d
  | _ => Raise AttributeError
  end.

Definition update_dict (d u : value) : result value :=
  update_dict_from u d.

End Paths.

Import Paths.

(* ------------------------------------------------------------------ *)
(** ** __init__.py: examples and the generator's configuration *)

(** [flex.http.Request], as far as the generator reads it.  [query] is
    the list of pairs [parse_qsl(request.query)] returns, each value
    already read by [ast.literal_eval] or [json.loads] (both external);
    [req_data] is [request.data], [JNull] when there is no body. *)
Record Request : Type := {
  method : string;
  query : list (string * json);
  req_data : json
}.

Record Response : Type := {
  path : string;
  status_code : string;
  content_type : string;
  resp_data : json
}.

Record Example : Type := {
  request : Request;
  response : Response;
  description : string;
  summary : string
}.

(** The attributes of a [Generator] that generation reads. *)
Record Generator : Type := {
  base_path : string;
  existing_schema : pdict;
  default : option value;
  query_key_blacklist : list string
}.

(** One entry of the per-verb schema: the dictionary
    [{'responses': ..., 'description': ..., 'summary': ...,
    'parameters': ...}], whose last two keys may be absent. *)
Record Operation : Type := {
  op_responses : pdict;
  op_description : string;
  op_summary : option string;
  op_parameters : option (list pdict)
}.

(** The buckets of [_merge_examples]: a dictionary keyed by component
    tuples, in insertion order. *)
Definition buckets := list (components * list Example).

Module Gen.

(** [Generator.is_param], the default heuristic. *)
Definition is_param (ex : string) : bool :=
  Str.param_pattern_match ex || Str.isdigit ex.

(** Truth value of a Python object read from JSON. *)
Definition truthy (j : json) : bool :=
  match j with
  | JNull => false
  | JBool b => b
  | JNum n => negb (Z.eqb n 0)
  | JStr s => negb (String.eqb s EmptyString)
  | JArr l => match l with [] => false | _ => true end
  | JObj m => match m with [] => false | _ => true end
  end.

(** [x or d] for strings. *)
Definition str_or (x d : string) : string :=
  if String.eqb x EmptyString then d else x.

(** [Generator._get_components]; indexing the empty tuple raises
    [IndexError]. *)
Definition get_components (self : Generator) (path : string)
  : result components :=
  let components :=
    map (fun e => if negb (is_param e) then Some e else None)
        (Str.split path) in
  let base_components := map Some (Str.split (base_path self)) in
  let components :=
    if components_eqb base_components
         (firstn (length base_components) components)
    then skipn (length base_components) components
    else components in
  match components with
  | [] => Raise IndexError
  | c :: rest =>
      if component_eqb c (Some EmptyString) then Ok rest
      else Ok components
  end.

(** *** Buckets *)

(** [component_examples[c].extend(exs)] on a [defaultdict(list)]. *)
Fixpoint bucket_extend (b : buckets) (c : components) (exs : list Example)
  : buckets :=
  match b with
  | [] => [(c, exs)]
  | (c', es) :: b' =>
      if components_eqb c c' then (c', es ++ exs) :: b'
      else (c', es) :: bucket_extend b' c exs
  end.

(** [component_examples.pop(c)] *)
Fixpoint bucket_pop (b : buckets) (c : components)
  : result (list Example * buckets) :=
  match b with
  | [] => Raise KeyError
  | (c', es) :: b' =>
      if components_eqb c c' then Ok (es, b')
      else
        let* r := bucket_pop b' c in
        Ok (fst r, (c', es) :: snd r)
  end.

(** First pass of [_merge_examples]: bucket the raw paths by their
    naive components. *)
Fixpoint naive_buckets (self : Generator)
         (path_to_examples : list (string * list Example))
         (component_examples : buckets) : result buckets :=
  match path_to_examples with
  | [] => Ok component_examples
  | (p, exs) :: rest =>
      let* components := get_components self p in
      naive_buckets self rest (bucket_extend component_examples components exs)
  end.

(** The inner loop [for c2 in component_examples]: the first key other
    than [c1] that [c1] matches.  The keys of a dictionary are pairwise
    distinct, so [c1 is c2] is the equality of keys. *)
Fixpoint find_match (c1 : components) (b : buckets) : option components :=
  match b with
  | [] => None
  | (c2, _) :: b' =>
      if components_eqb c1 c2 then find_match c1 b'
      else if component_matches c1 c2 then Some c2
      else find_match c1 b'
  end.

(** [if match:] is false for [None] and for the empty tuple. *)
Definition match_truthy (m : option components) : bool :=
  match m with
  | Some (_ :: _) => true
  | _ => false
  end.

(** One turn of the outer loop of the second pass. *)
Definition refine_step (component_examples : buckets) (c1 : components)
  : result buckets :=
  let m := find_match c1 component_examples in
  if match_truthy m then
    match m with
    | Some c2 =>
        let* popped := bucket_pop component_examples c1 in
        Ok (bucket_extend (snd popped) c2 (fst popped))
    | None => Ok component_examples
    end
  else Ok component_examples.

(** The outer loop [for c1 in component_examples.copy()] over the keys
    of the snapshot. *)
Fixpoint refine_loop (keys : list components) (component_examples : buckets)
  : result buckets :=
  match keys with
  | [] => Ok component_examples
  | c1 :: keys' =>
      let* b := refine_step component_examples c1 in
      refine_loop keys' b
  end.

Definition refine (component_examples : buckets) : result buckets :=
  refine_loop (map fst component_examples) component_examples.

(** The final dictionary comprehension, keyed by templated path: a key
    built twice keeps its first position and its last value. *)
Fixpoint templated (b : buckets) (acc : list (string * list Example))
  : list (string * list Example) :=
  match b with
  | [] => acc
  | (c, exs) :: b' =>
      templated b' (dict_set acc (build_paramaterized_path c) exs)
  end.

(** [Generator._merge_examples] *)
Definition merge_examples (self : Generator)
           (path_to_examples : list (string * list Example))
  : result (list (string * list Example)) :=
  let* naive := naive_buckets self path_to_examples [] in
  let* refined := refine naive in
  Ok (templated refined []).

(** *** Schema inference *)

(** [Generator._get_swagger_type] *)
Definition get_swagger_type (x : json) : string :=
  match x with
  | JObj _ => "object"
  | JBool _ => "boolean"
  | JNum _ => "number"
  | JArr _ => "array"
  | JStr _ => "string"
  | JNull => "null"
  end.

(** [Generator._generate_schema] *)
Fixpoint generate_schema (body : json) : result value :=
  match body with
  | JObj members =>
      let* properties :=
        map_result
          (fun kv : string * json =>
             let* s := generate_schema (snd kv) in Ok (fst kv, s))
          members in
      Ok (VDict [("type", VStr "object");
                 ("additionalProperties", VBool false);
                 ("properties", VDict properties)])
  | JArr items =>
      match items with
      | [] => Raise EmptyExampleArrayError
      | first :: _ =>
          let* s := generate_schema first in
          Ok (VDict [("type", VStr "array"); ("items", s)])
      end
  | _ => Ok (VDict [("type", VStr (get_swagger_type body))])
  end.

(** [Generator._generate_type_params] *)
Fixpoint generate_type_params (body : json) : result value :=
  match body with
  | JObj members =>
      let* properties :=
        map_result
          (fun kv : string * json =>
             let* s := generate_type_params (snd kv) in Ok (fst kv, s))
          members in
      Ok (VDict [("type", VStr "object");
                 ("properties", VDict properties)])
  | JArr items =>
      match items with
      | [] => Raise EmptyExampleArrayError
      | first :: _ =>
          let* s := generate_type_params first in
          Ok (VDict [("type", VStr "array"); ("items", s)])
      end
  | _ => Ok (VDict [("type", VStr (get_swagger_type body))])
  end.

(** [Generator._merge_response_schema] *)
Definition merge_response_schema (schema1 schema2 : value) : result value :=
  update_dict schema1 schema2.

(** Truth value of a dictionary entry. *)
Definition value_truthy (v : value) : bool :=
  match v with
  | VStr s => negb (String.eqb s EmptyString)
  | VBool b => b
  | VDict e => match e with [] => false | _ => true end
  end.

(** [v[k]] for a value expected to be a dictionary. *)
Definition value_getitem (v : value) (k : string) : result value :=
  match v with
  | VDict e => getitem e k
  | _ => Raise TypeError
  end.

(** [Generator._generate_response_params]; [params] is the entry the
    status code already has, [{}] when it has none. *)
Definition generate_response_params (response : json) (params : value)
  : result value :=
  let* schema := generate_schema response in
  if value_truthy params then
    let* old := value_getitem params "schema" in
    let* merged := merge_response_schema schema old in
    Ok (VDict [("schema", merged); ("description", VStr "TODO")])
  else
    Ok (VDict [("schema", schema); ("description", VStr "TODO")]).

(** *** Request parameters *)

(** [Generator._get_request_query_params_with_data_type]: the typed
    pairs collected into a dictionary. *)
Definition get_request_query_params_with_data_type
           (query_items : list (string * json)) : list (string * json) :=
  fold_left (fun acc kv => dict_set acc (fst kv) (snd kv)) query_items [].

(** [d.update(u)] *)
Definition dict_update (d u : pdict) : pdict :=
  fold_left (fun acc kv => dict_set acc (fst kv) (snd kv)) u d.

(** [u.items()] for a value expected to be a dictionary. *)
Definition value_items (v : value) : result pdict :=
  match v with
  | VDict e => Ok e
  | _ => Raise AttributeError
  end.

(** The loop over the query dictionary in [_generate_request_params]. *)
Fixpoint query_params (self : Generator) (items : list (string * json))
         (parameters : list pdict) : result (list pdict) :=
  match items with
  | [] => Ok parameters
  | (q_k, q_v) :: items' =>
      let query_param :=
        [("name", VStr q_k); ("in", VStr "query"); ("required", VBool true)] in
      let* schema_type := generate_type_params q_v in
      let* entries := value_items schema_type in
      let query_param := dict_update query_param entries in
      if negb (existsb (String.eqb q_k) (query_key_blacklist self)) then
        query_params self items' (parameters ++ [query_param])
      else
        query_params self items' parameters
  end.

(** The loop over the components of the path in
    [_generate_request_params]. *)
Fixpoint path_params (i : nat) (cs : components) (parameters : list pdict)
  : list pdict :=
  match cs with
  | [] => parameters
  | None :: cs' =>
      let path_param :=
        [("name", VStr ("param" ++ Str.of_nat (S i))%string);
         ("in", VStr "path");
         ("required", VBool true);
         ("type", VStr "string")] in
      path_params (S i) cs' (parameters ++ [path_param])
  | Some _ :: cs' => path_params i cs' parameters
  end.

(** [param['name']] as a dictionary key; every parameter the generator
    builds is named by a string. *)
Definition param_name (param : pdict) : result string :=
  let* n := getitem param "name" in
  match n with
  | VStr s => Ok s
  | _ => Raise TypeError
  end.

Definition param_in (param : pdict) (loc : string) : result bool :=
  let* l := getitem param "in" in
  Ok (value_eqb_str l loc).

(** The dictionary comprehension at the head of [_merge_query_params]. *)
Fixpoint query_params_by_name (params2 : list pdict)
         (acc : list (string * pdict)) : result (list (string * pdict)) :=
  match params2 with
  | [] => Ok acc
  | param :: rest =>
      let* q := param_in param "query" in
      if q then
        let* n := param_name param in
        query_params_by_name rest (dict_set acc n param)
      else query_params_by_name rest acc
  end.

(** The loop over [params1] in [_merge_query_params]: a query
    parameter also present in [query_params2] is popped from it and
    kept as it is, any other query parameter is made optional. *)
Fixpoint merge_loop (params1 : list pdict)
         (query_params2 : list (string * pdict))
  : result (list pdict * list (string * pdict)) :=
  match params1 with
  | [] => Ok ([], query_params2)
  | param :: rest =>
      let* q := param_in param "query" in
      if q then
        let* n := param_name param in
        if dict_mem query_params2 n then
          let* r := merge_loop rest (dict_remove query_params2 n) in
          Ok (param :: fst r, snd r)
        else
          let* r := merge_loop rest query_params2 in
          Ok (dict_set param "required" (VBool false) :: fst r, snd r)
      else
        let* r := merge_loop rest query_params2 in
        Ok (param :: fst r, snd r)
  end.

(** [Generator._merge_query_params] *)
Definition merge_query_params (params1 params2 : list pdict)
  : result (list pdict) :=
  let* query_params2 := query_params_by_name params2 [] in
  let* r := merge_loop params1 query_params2 in
  Ok (fst r
      ++ map (fun np => dict_set (snd np) "required" (VBool false)) (snd r)).

(** [Generator._generate_request_params] *)
Definition generate_request_params (self : Generator) (path : string)
           (request : Request) (params : list pdict)
  : result (list pdict) :=
  let modified_req_params :=
    get_request_query_params_with_data_type (query request) in
  let* parameters := query_params self modified_req_params [] in
  let* cs := get_components self path in
  let parameters := path_params 0 cs parameters in
  let* parameters :=
    if truthy (req_data request) then
      let* schema := generate_schema (req_data request) in
      Ok (parameters
          ++ [[("name", VStr "body_data"); ("in", VStr "body");
               ("schema", schema)]])
    else Ok parameters in
  match params with
  | [] => Ok parameters
  | _ => merge_query_params parameters params
  end.

(** *** Per-path generation *)

(** The factory of the [defaultdict] in [_generate_path]. *)
Definition operation : Operation :=
  {| op_responses := [];
     op_description := "TODO";
     op_summary := None;
     op_parameters := None |}.

(** The body of the loop of [_generate_path] for one example. *)
Definition generate_path_step (self : Generator) (path : string)
           (schema : list (string * Operation)) (ex : Example)
  : result (list (string * Operation)) :=
  let verb := Str.lower (method (request ex)) in
  let op := match dict_get schema verb with
            | Some o => o
            | None => operation
            end in
  let description' := str_or (description ex) "TODO" in
  let summary' := Some (str_or (summary ex) "") in
  let* rp :=
    if String.eqb (content_type (response ex)) "application/json" then
      let code := status_code (response ex) in
      let existing :=
        match dict_get (op_responses op) code with
        | Some v => v
        | None => VDict []
        end in
      let* responses :=
        match generate_response_params (resp_data (response ex)) existing with
        | Ok r => Ok (dict_set (op_responses op) code r)
        | Raise EmptyExampleArrayError => Ok (op_responses op)
        | Raise e => Raise e
        end in
      let* parameters :=
        generate_request_params self path (request ex)
          (match op_parameters op with Some ps => ps | None => [] end) in
      Ok (responses, Some parameters)
    else Ok (op_responses op, op_parameters op) in
  let responses :=
    match default self with
    | Some d => dict_set (fst rp) "default" d
    | None => fst rp
    end in
  Ok (dict_set schema verb
        {| op_responses := responses;
           op_description := description';
           op_summary := summary';
           op_parameters := snd rp |}).

Fixpoint generate_path_loop (self : Generator) (path : string)
         (examples : list Example) (schema : list (string * Operation))
  : result (list (string * Operation)) :=
  match examples with
  | [] => Ok schema
  | ex :: rest =>
      let* schema' := generate_path_step self path schema ex in
      generate_path_loop self path rest schema'
  end.

(** [Generator._generate_path] *)
Definition generate_path (self : Generator) (path : string)
           (examples : list Example) : result (list (string * Operation)) :=
  generate_path_loop self path examples [].

(** *** Reference matching *)

(** [len(body)] *)
Definition py_len (body : json) : result nat :=
  match body with
  | JArr l => Ok (length l)
  | JObj m => Ok (length m)
  | JStr s => Ok (String.length s)
  | _ => Raise TypeError
  end.

(** [body[0]] *)
Definition py_first (body : json) : result json :=
  match body with
  | JArr (x :: _) => Ok x
  | JArr [] => Raise IndexError
  | JStr (String c _) => Ok (JStr (String c EmptyString))
  | JStr EmptyString => Raise IndexError
  | JObj _ => Raise KeyError
  | _ => Raise TypeError
  end.

(** [prop in body] *)
Definition py_in (prop : string) (body : json) : result bool :=
  match body with
  | JObj m => Ok (dict_mem m prop)
  | JArr l =>
      Ok (existsb (fun x => match x with
                            | JStr s => String.eqb s prop
                            | _ => false
                            end) l)
  | JStr s => Ok (Str.contains prop s)
  | _ => Raise TypeError
  end.

(** [body[prop]] *)
Definition py_index (body : json) (prop : string) : result json :=
  match body with
  | JObj m => getitem m prop
  | _ => Raise TypeError
  end.

(** [body == {}] *)
Definition is_empty_mapping (body : json) : bool :=
  match body with
  | JObj [] => true
  | _ => false
  end.

(** [self.existing_schema.get('definitions', {}).items()] *)
Definition definitions (self : Generator) : result pdict :=
  match dict_get (existing_schema self) "definitions" with
  | Some v => value_items v
  | None => Ok []
  end.

Section ReferenceMatcher.

(** The external validation capability: [validate definition body
    context] is [true] when [flex.core.validate] returns and [false]
    when it raises [ValidationError]. *)
Variable validate : value -> json -> pdict -> bool.

Variable self : Generator.

(** The loop over the definitions: the first one that validates. *)
Definition first_valid (defs : pdict) (body : json)
  : option (string * value) :=
  find (fun nd => validate (snd nd) body (existing_schema self)) defs.

Definition reference (name : string) : value :=
  VDict [("$ref", VStr ("#/definitions/" ++ name)%string)].

(** [Generator._match_references] *)
Fixpoint match_references (schema : value) (body : json) {struct schema}
  : result value :=
  match schema with
  | VDict d =>
      if dict_mem d "$ref" then Ok schema
      else
        let* ty := getitem d "type" in
        let* array_branch :=
          if value_eqb_str ty "array" && dict_mem d "items" then
            let* n := py_len body in Ok (0 <? n)
          else Ok false in
        if array_branch then
          let* d' :=
            dict_update_at "items"
              (fun items =>
                 let* first := py_first body in
                 match_references items first) d in
          Ok (VDict d')
        else if value_eqb_str ty "object" && dict_mem d "properties" then
          if is_empty_mapping body then Ok schema
          else
            let* defs := definitions self in
            match first_valid defs body with
            | Some nd => Ok (reference (fst nd))
            | None =>
                let* d' :=
                  dict_update_at "properties"
                    (fun props =>
                       match props with
                       | VDict ps =>
                           let* ps' :=
                             map_result
                               (fun kv : string * value =>
                                  let* present := py_in (fst kv) body in
                                  if present then
                                    let* sub := py_index body (fst kv) in
                                    let* s := match_references (snd kv) sub in
                                    Ok (fst kv, s)
                                  else Ok kv)
                               ps in
                           Ok (VDict ps')
                       | _ => Raise AttributeError
                       end) d in
                Ok (VDict d')
            end
        else Ok schema
  | VStr s =>
      if Str.contains "$ref" s then Ok schema else Raise TypeError
  | VBool _ => Raise TypeError
  end.

(** The body of the loop over the parameters in [generate_paths]. *)
Definition match_param (example : Example) (param : pdict)
  : result pdict :=
  let* b := param_in param "body" in
  if b then
    let* s := getitem param "schema" in
    let* s' := match_references s (req_data (request example)) in
    Ok (dict_set param "schema" s')
  else Ok param.

(** The body of the loop over the examples of one path in
    [generate_paths]. *)
Definition match_example (schema : list (string * Operation))
           (example : Example) : result (list (string * Operation)) :=
  let verb := Str.lower (method (request example)) in
  let* op := getitem schema verb in
  let code := status_code (response example) in
  if dict_mem (op_responses op) code then
    let* resp := getitem (op_responses op) code in
    let* rs := value_getitem resp "schema" in
    let* rs' := match_references rs (resp_data (response example)) in
    let* resp' := Paths.setitem resp "schema" rs' in
    let* params :=
      match op_parameters op with
      | Some ps => Ok ps
      | None => Raise KeyError
      end in
    let* matched_params := map_result (match_param example) params in
    Ok (dict_set schema verb
          {| op_responses := dict_set (op_responses op) code resp';
             op_description := op_description op;
             op_summary := op_summary op;
             op_parameters := Some matched_params |})
  else Ok schema.

Fixpoint match_examples (schema : list (string * Operation))
         (examples : list Example) : result (list (string * Operation)) :=
  match examples with
  | [] => Ok schema
  | example :: rest =>
      let* schema' := match_example schema example in
      match_examples schema' rest
  end.

(** [Generator.generate_paths] over the stored [path_to_examples].  The
    source stores the one [default] object under every verb; the entries
    are separate values here, which differs only if a status code is
    literally [default]. *)
Definition generate_paths (path_to_examples : list (string * list Example))
  : result (list (string * list (string * Operation))) :=
  let* valid_examples := merge_examples self path_to_examples in
  let* schemas :=
    map_result
      (fun pe : string * list Example =>
         let* schema := generate_path self (fst pe) (snd pe) in
         Ok (fst pe, schema))
      valid_examples in
  map_result
    (fun ps : string * list (string * Operation) =>
       let* exs := getitem valid_examples (fst ps) in
       let* schema := match_examples (snd ps) exs in
       Ok (fst ps, schema))
    schemas.

End ReferenceMatcher.

End Gen.
Import Gen.

(* ------------------------------------------------------------------ *)
(** ** Notions used to state the properties *)

(** The positionwise reading of [component_matches]: equal length, and at
    each position equal segments or a slot on the right. *)
Inductive compatible : components -> components -> Prop :=
| compatible_nil : compatible [] []
| compatible_cons e1 e2 t1 t2 :
    e1 = e2 \/ e2 = None -> compatible t1 t2 ->
    compatible (e1 :: t1) (e2 :: t2).

(** The traversal of [_generate_schema] (every member of an object, the
    first element of an array) meets an empty array. *)
Fixpoint meets_empty_array (body : json) : bool :=
  match body with
  | JArr [] => true
  | JArr (first :: _) => meets_empty_array first
  | JObj members => existsb (fun kv => meets_empty_array (snd kv)) members
  | _ => false
  end.

(** The keys of the buckets and the examples filed under a key. *)
Definition keys (b : buckets) : list components := map fst b.

Fixpoint examples_of (b : buckets) (c : components) : list Example :=
  match b with
  | [] => []
  | (c', es) :: b' => if components_eqb c c' then es else examples_of b' c
  end.

(** The loop of [update_dict] over the entries of [u], stated on its
    own. *)
Fixpoint update_entries (es : list (string * value)) (d : value)
  : result value :=
  match es with
  | [] => Ok d
  | (k, v) :: es' =>
      match v with
      | VDict _ =>
          let* sub := get_or_empty d k in
          let* merged := update_dict sub v in
          let* d' := setitem d k merged in
          update_entries es' d'
      | _ =>
          let* d' := setitem d k v in
          update_entries es' d'
      end
  end.

Definition is_leaf (v : value) : bool :=
  match v with
  | VDict _ => false
  | _ => true
  end.

(** The leaf a dictionary holds at the end of a path of keys. *)
Fixpoint leaf_at (v : value) (keypath : list string) : option value :=
  match keypath with
  | [] => if is_leaf v then Some v else None
  | k :: rest =>
      match v with
      | VDict es =>
          match dict_get es k with
          | Some x => leaf_at x rest
          | None => None
          end
      | _ => None
      end
  end.

Fixpoint distinct (ks : list string) : bool :=
  match ks with
  | [] => true
  | k :: rest => negb (existsb (String.eqb k) rest) && distinct rest
  end.

(** Every dictionary of the value has pairwise distinct keys. *)
Fixpoint distinct_keys (v : value) : bool :=
  match v with
  | VDict es =>
      distinct (map fst es) && forallb (fun kv => distinct_keys (snd kv)) es
  | _ => true
  end.

(** Every object of the JSON value has pairwise distinct keys. *)
Fixpoint json_distinct_keys (j : json) : bool :=
  match j with
  | JObj m =>
      distinct (map fst m) && forallb (fun kv => json_distinct_keys (snd kv)) m
  | JArr l => forallb json_distinct_keys l
  | _ => true
  end.

(** The shape of the schemas [_generate_schema] builds: [properties]
    holds a dictionary of schemas, [items] a schema, every other key a
    leaf. *)
Fixpoint schema_shaped (v : value) : bool :=
  match v with
  | VDict es =>
      forallb
        (fun kv =>
           if String.eqb (fst kv) "properties" then
             match snd kv with
             | VDict ps => forallb (fun p => schema_shaped (snd p)) ps
             | _ => false
             end
           else if String.eqb (fst kv) "items" then schema_shaped (snd kv)
           else is_leaf (snd kv))
        es
  | _ => false
  end.

Definition properties_shaped (v : value) : bool :=
  match v with
  | VDict ps => forallb (fun p => schema_shaped (snd p)) ps
  | _ => false
  end.

(** The test of [_get_components] for stripping the base path, applied
    to a tuple of components. *)
Definition base_is_prefix (self : Generator) (cs : components) : bool :=
  let base_components := map Some (Str.split (base_path self)) in
  components_eqb base_components (firstn (length base_components) cs).

(** ** Examples used as concrete inputs *)

Definition get_example (p : string) (q : list (string * json)) (data : json)
           (resp : json) : Example :=
  {| request := {| method := "GET"; query := q; req_data := data |};
     response := {| path := p; status_code := "200";
                    content_type := "application/json"; resp_data := resp |};
     description := "";
     summary := "" |}.

Definition plain_generator (base : string) : Generator :=
  {| base_path := base;
     existing_schema := [];
     default := None;
     query_key_blacklist := [] |}.

Definition users_slot : components := [Some "users"; None].
Definition users_literal : components := [Some "users"; Some "test_an_error"].

Definition example_users_1 : Example :=
  get_example "/users/1" [] JNull (JObj [("id", JNum 1%Z)]).
Definition example_users_error : Example :=
  get_example "/users/test_an_error" [] JNull (JObj [("id", JNum 2%Z)]).

Definition users_buckets : buckets :=
  [(users_slot, [example_users_1]); (users_literal, [example_users_error])].

(** Three calls of one route: the second one carries no query. *)
Definition example_items_a1 : Example :=
  get_example "/items" [("a", JNum 1%Z)] JNull (JObj []).
Definition example_items_plain : Example :=
  get_example "/items" [] JNull (JObj []).
Definition example_items_a2 : Example :=
  get_example "/items" [("a", JNum 2%Z)] JNull (JObj []).

Definition required_query_a : pdict :=
  [("name", VStr "a"); ("in", VStr "query"); ("required", VBool true);
   ("type", VStr "number")].

Definition optional_query_a : pdict :=
  [("name", VStr "a"); ("in", VStr "query"); ("required", VBool false);
   ("type", VStr "number")].

(** Calls with an empty array in the response body, in the request body
    and in a query value. *)
Definition example_empty_in_response : Example :=
  get_example "/x" [] JNull (JObj [("a", JArr [])]).
Definition example_empty_in_request : Example :=
  get_example "/x" [] (JObj [("a", JArr [])]) (JObj [("ok", JBool true)]).
Definition example_empty_in_query : Example :=
  get_example "/x" [("f", JArr [])] JNull (JObj [("ok", JBool true)]).

(** The entry of the verb of an example when its turn comes: the one
    the schema has, or a fresh one from the factory. *)
Definition current_operation (schema : list (string * Operation))
           (ex : Example) : Operation :=
  match dict_get schema (Str.lower (method (request ex))) with
  | Some o => o
  | None => operation
  end.

(** The parameters an operation ends with. *)
Definition final_parameters (r : result (list (string * Operation)))
           (verb : string) : option (list pdict) :=
  match r with
  | Ok schema =>
      match dict_get schema verb with
      | Some op => op_parameters op
      | None => None
      end
  | Raise _ => None
  end.

(** Two response bodies that disagree on the type of [a]. *)
Definition body_a_number : json := JObj [("a", JNum 1%Z)].
Definition body_a_string : json := JObj [("a", JStr "x")].
Definition body_b_string : json := JObj [("b", JStr "x")].

Definition example_a_number : Example :=
  get_example "/x" [] JNull body_a_number.
Definition example_a_string : Example :=
  get_example "/x" [] JNull body_a_string.
Definition example_b_string : Example :=
  get_example "/x" [] JNull body_b_string.

(** [v[k]] as an option, for a value that is a dictionary. *)
Definition dict_get_value (v : value) (k : string) : option value :=
  match v with
  | VDict e => dict_get e k
  | _ => None
  end.

(** The schema an operation ends with for a status code. *)
Definition final_response_schema (r : result (list (string * Operation)))
           (verb code : string) : option value :=
  match r with
  | Ok schema =>
      match dict_get schema verb with
      | Some op =>
          match dict_get (op_responses op) code with
          | Some (VDict resp) => dict_get resp "schema"
          | _ => None
          end
      | None => None
      end
  | Raise _ => None
  end.

Definition option_bind {A B : Type} (o : option A) (f : A -> option B)
  : option B :=
  match o with
  | Some a => f a
  | None => None
  end.


(** ** Auxiliary notions of the proofs *)

(* ------------------------------------------------------------------ *)
(** ** Induction over nested values *)

Section JsonInd.
Variable P : json -> Prop.
Hypothesis Hnull : P JNull.
Hypothesis Hbool : forall b, P (JBool b).
Hypothesis Hnum : forall n, P (JNum n).
Hypothesis Hstr : forall s, P (JStr s).
Hypothesis Harr : forall l, Forall P l -> P (JArr l).
Hypothesis Hobj : forall m, Forall (fun kv => P (snd kv)) m -> P (JObj m).

Fixpoint json_nested_ind (j : json) : P j :=
  match j with
  | JNull => Hnull
  | JBool b => Hbool b
  | JNum n => Hnum n
  | JStr s => Hstr s
  | JArr l =>
      Harr l ((fix go (l : list json) : Forall P l :=
                 match l with
                 | [] => Forall_nil _
                 | x :: l' => Forall_cons x (json_nested_ind x) (go l')
                 end) l)
  | JObj m =>
      Hobj m ((fix go (m : list (string * json))
                 : Forall (fun kv => P (snd kv)) m :=
                 match m with
                 | [] => Forall_nil _
                 | kv :: m' =>
                     Forall_cons kv (json_nested_ind (snd kv)) (go m')
                 end) m)
  end.
End JsonInd.

Section ValueInd.
Variable P : value -> Prop.
Hypothesis Hstr : forall s, P (VStr s).
Hypothesis Hbool : forall b, P (VBool b).
Hypothesis Hdict : forall es, Forall (fun kv => P (snd kv)) es -> P (VDict es).

Fixpoint value_nested_ind (v : value) : P v :=
  match v with
  | VStr s => Hstr s
  | VBool b => Hbool b
  | VDict es =>
      Hdict es ((fix go (es : list (string * value))
                   : Forall (fun kv => P (snd kv)) es :=
                   match es with
                   | [] => Forall_nil _
                   | kv :: es' =>
                       Forall_cons kv (value_nested_ind (snd kv)) (go es')
                   end) es)
  end.
End ValueInd.


(** A key is [unmatched] when it matches no other naive key. *)
Definition unmatched (b0 : buckets) (c : components) : Prop :=
  forall c2, In c2 (keys b0) -> c2 <> c -> component_matches c c2 = false.


Definition no_slash (s : string) : bool :=
  Str.all_chars (fun c => negb (Ascii.eqb c "/")) s.

Definition tag (e : string) : component :=
  if negb (is_param e) then Some e else None.

(** A literal component as [_get_components] produces it: a segment of
    the split path that [is_param] rejects. *)
Definition literal_ok (c : component) : Prop :=
  match c with
  | Some s => is_param s = false /\ no_slash s = true
  | None => True
  end.


Definition decimal_digit (c : ascii) : bool :=
  let n := nat_of_ascii c in (48 <=? n) && (n <=? 57).


Definition entry_ok (k : string) (v : value) : bool :=
  if String.eqb k "properties" then properties_shaped v
  else if String.eqb k "items" then schema_shaped v
  else is_leaf v.


Definition merges_shaped (u : value) : Prop :=
  (schema_shaped u = true ->
   forall d, schema_shaped d = true ->
             exists r, update_dict d u = Ok r /\ schema_shaped r = true) /\
  (properties_shaped u = true ->
   forall d, properties_shaped d = true ->
             exists r, update_dict d u = Ok r /\ properties_shaped r = true).


Section PropertyLoop.

Variable validate : value -> json -> pdict -> bool.
Variable self : Generator.

(** What the loop over the properties does with one property: it is
    kept when the body lacks it, matched against its value otherwise. *)
Definition match_property (body : json) (kv : string * value)
  : result (string * value) :=
  let* present := py_in (fst kv) body in
  if present then
    let* sub := py_index body (fst kv) in
    let* s := match_references validate self (snd kv) sub in
    Ok (fst kv, s)
  else Ok kv.

End PropertyLoop.


Definition never_valid : value -> json -> pdict -> bool :=
  fun _ _ _ => false.




Definition object_node : pdict :=
  [("type", VStr "object"); ("additionalProperties", VBool false);
   ("properties", VDict [("a", VDict [("type", VStr "number")])])].


(* ------------------------------------------------------------------ *)
(** ** __init__.py: the example store *)

Module Store.

(** [k in v] for a dictionary entry: key membership for a dictionary,
    substring test for a string. *)
Definition value_contains (v : value) (k : string) : result bool :=
  match v with
  | VDict e => Ok (dict_mem e k)
  | VStr s => Ok (Str.contains k s)
  | VBool _ => Raise TypeError
  end.

(** [self.existing_schema.get('paths', {}).items()] *)
Definition known_paths (self : Generator) : result pdict :=
  match dict_get (existing_schema self) "paths" with
  | Some v => value_items v
  | None => Ok []
  end.

(** The loop of [_known_to_schema]: the first known path that the
    components of the example match and that lists its verb ends it. *)
Fixpoint known_loop (self : Generator) (example_components : components)
         (verb : string) (items : pdict) : result bool :=
  match items with
  | [] => Ok false
  | (known_path, verbs) :: rest =>
      let* known_components := get_components self known_path in
      if component_matches example_components known_components then
        let* listed := value_contains verbs verb in
        if listed then Ok true
        else known_loop self example_components verb rest
      else known_loop self example_components verb rest
  end.

(** [Generator._known_to_schema] *)
Definition known_to_schema (self : Generator) (example : Example)
  : result bool :=
  let* example_components := get_components self (path (response example)) in
  let* items := known_paths self in
  known_loop self example_components
    (Str.lower (method (request example))) items.

(** [self.path_to_examples[p].append(example)] on a [defaultdict(list)]. *)
Definition store_append (path_to_examples : list (string * list Example))
           (p : string) (example : Example) : list (string * list Example) :=
  match dict_get path_to_examples p with
  | Some exs => dict_set path_to_examples p (exs ++ [example])
  | None => dict_set path_to_examples p [example]
  end.

(** [Generator.provide_example], from the example that
    [flex.http.normalize_response] (external) and [normalize_example]
    (the identity unless overridden) hand over; the state is
    [self.path_to_examples]. *)
Definition provide_example (self : Generator)
           (path_to_examples : list (string * list Example))
           (example : Example) : result (list (string * list Example)) :=
  let* store_it :=
    match existing_schema self with
    | [] => Ok true
    | _ => let* known := known_to_schema self example in Ok (negb known)
    end in
  if store_it then
    Ok (store_append path_to_examples (path (response example)) example)
  else Ok path_to_examples.

(** A sequence of calls of [provide_example]. *)
Fixpoint provide_examples (self : Generator)
         (path_to_examples : list (string * list Example))
         (examples : list Example) : result (list (string * list Example)) :=
  match examples with
  | [] => Ok path_to_examples
  | example :: rest =>
      let* path_to_examples' := provide_example self path_to_examples example in
      provide_examples self path_to_examples' rest
  end.

End Store.

Import Store.


(* ------------------------------------------------------------------ *)
(** ** Notions used by the further properties *)

Definition no_newline (s : string) : bool :=
  Str.all_chars (fun c => negb (Ascii.eqb c "010")) s.

(** The same generator with another base path. *)
Definition with_base_path (self : Generator) (base : string) : Generator :=
  {| base_path := base;
     existing_schema := existing_schema self;
     default := default self;
     query_key_blacklist := query_key_blacklist self |}.

(** The number of parameter slots of a tuple of components. *)
Definition slots (cs : components) : nat :=
  length (filter (fun c => negb (is_not_None c)) cs).

(** The segments of the templated path that stand at the slots. *)
Definition placeholders (cs : components) : list string :=
  map snd (filter (fun ce => negb (is_not_None (fst ce)))
                  (combine cs (render 0 cs))).

(** The path parameter [_generate_request_params] emits for slot [n]. *)
Definition path_param (n : nat) : pdict :=
  [("name", VStr ("param" ++ Str.of_nat n)%string);
   ("in", VStr "path");
   ("required", VBool true);
   ("type", VStr "string")].

(** The parameter is located in [loc]. *)
Definition located_in (loc : string) (p : pdict) : bool :=
  match dict_get p "in" with
  | Some l => value_eqb_str l loc
  | None => false
  end.

(** The names of the parameters of a list that are located in [loc]. *)
Definition names_in (loc : string) (ps : list pdict) : list (option value) :=
  map (fun p => dict_get p "name") (filter (located_in loc) ps).

Definition blacklisted (self : Generator) (k : string) : bool :=
  existsb (String.eqb k) (query_key_blacklist self).

(** The verb under which an example is filed. *)
Definition verb_of (ex : Example) : string :=
  Str.lower (method (request ex)).

(** The last example of a list that has the given verb. *)
Definition last_of_verb (examples : list Example) (verb : string)
  : option Example :=
  find (fun ex => String.eqb (verb_of ex) verb) (List.rev examples).

(** No empty array is met in the body or in a query value of the
    request. *)
Definition request_free_of_empty_arrays (ex : Example) : bool :=
  negb (meets_empty_array (req_data (request ex)))
  && forallb (fun kv => negb (meets_empty_array (snd kv)))
             (query (request ex)).

(** The examples stored under a raw path. *)
Definition stored_under (path_to_examples : list (string * list Example))
           (p : string) : list Example :=
  match dict_get path_to_examples p with
  | Some exs => exs
  | None => []
  end.


(** The keys of a list in the order of their first occurrence, each
    once. *)
Fixpoint first_occurrences (ks : list string) : list string :=
  match ks with
  | [] => []
  | k :: rest =>
      k :: filter (fun x => negb (String.eqb x k)) (first_occurrences rest)
  end.

(** Notions for the merge of two parameter lists. *)
Definition optional (p : pdict) : pdict :=
  dict_set p "required" (VBool false).

Definition name_of (p : pdict) : string :=
  match dict_get p "name" with
  | Some (VStr s) => s
  | _ => ""
  end.

Definition query_names (ps : list pdict) : list string :=
  map name_of (filter (located_in "query") ps).

Definition mentions (names : list string) (p : pdict) : bool :=
  existsb (String.eqb (name_of p)) names.

(** A parameter as the generator builds them: it has a location, and a
    query parameter is named by a string. *)
Definition well_formed (p : pdict) : bool :=
  match dict_get p "in" with
  | None => false
  | Some l =>
      if value_eqb_str l "query" then
        match dict_get p "name" with
        | Some (VStr _) => true
        | _ => false
        end
      else true
  end.

Definition query_param_of (name type : string) (required : bool) : pdict :=
  [("name", VStr name); ("in", VStr "query"); ("required", VBool required);
   ("type", VStr type)].

(* ------------------------------------------------------------------ *)
(** ** Equality tests *)

Lemma component_eqb_spec (e1 e2 : component) :
  component_eqb e1 e2 = true <-> e1 = e2.
Proof.
  destruct e1 as [a|], e2 as [b|]; simpl; split; intro H;
    try discriminate; try reflexivity.
  - apply String.eqb_eq in H. now subst.
  - inversion H; subst. apply String.eqb_refl.
Qed.

Lemma component_eqb_refl (e : component) : component_eqb e e = true.
Proof. now apply component_eqb_spec. Qed.

Lemma components_eqb_spec (c1 c2 : components) :
  components_eqb c1 c2 = true <-> c1 = c2.
Proof.
  revert c2. induction c1 as [|e1 t1 IH]; intros [|e2 t2]; simpl;
    split; intro H; try discriminate; try reflexivity.
  - apply andb_true_iff in H. destruct H as [He Ht].
    apply component_eqb_spec in He. apply IH in Ht. now subst.
  - inversion H; subst. rewrite component_eqb_refl. simpl. now apply IH.
Qed.

Lemma components_eqb_refl (c : components) : components_eqb c c = true.
Proof. now apply components_eqb_spec. Qed.

Lemma components_eqb_neq (c1 c2 : components) :
  components_eqb c1 c2 = false <-> c1 <> c2.
Proof.
  split.
  - intros H E. apply components_eqb_spec in E. congruence.
  - intro N. destruct (components_eqb c1 c2) eqn:E; [|reflexivity].
    apply components_eqb_spec in E. contradiction.
Qed.

(* ------------------------------------------------------------------ *)
(** ** The component matcher *)

#[local] Hint Constructors compatible : core.

Lemma compatible_length c1 c2 : compatible c1 c2 -> length c1 = length c2.
Proof. induction 1; simpl; congruence. Qed.

Lemma pair_test_false (e1 e2 : component) :
  negb (component_eqb e1 e2) && is_not_None e2 = false <->
  (e1 = e2 \/ e2 = None).
Proof.
  destruct (component_eqb e1 e2) eqn:E; simpl.
  - apply component_eqb_spec in E. tauto.
  - destruct e2 as [b|]; simpl.
    + split; [discriminate|]. intros [H|H]; [|discriminate].
      apply component_eqb_spec in H. congruence.
    + tauto.
Qed.

Lemma zip_loop_compatible c1 c2 :
  length c1 = length c2 -> (zip_loop c1 c2 = true <-> compatible c1 c2).
Proof.
  revert c2. induction c1 as [|e1 t1 IH]; intros [|e2 t2] L;
    simpl in L; try discriminate.
  - simpl. split; auto.
  - injection L as L. simpl.
    destruct (negb (component_eqb e1 e2) && is_not_None e2) eqn:E.
    + split; [discriminate|]. intro C. inversion C; subst.
      apply pair_test_false in H2. congruence.
    + apply pair_test_false in E. rewrite (IH _ L). split; auto.
      intro C. now inversion C.
Qed.

Lemma component_matches_compatible c1 c2 :
  component_matches c1 c2 = true <-> compatible c1 c2.
Proof.
  unfold component_matches.
  destruct (Nat.eqb (length c1) (length c2)) eqn:L; simpl.
  - apply Nat.eqb_eq in L. now apply zip_loop_compatible.
  - apply Nat.eqb_neq in L. split; [discriminate|].
    intro C. apply compatible_length in C. contradiction.
Qed.

Lemma compatible_refl c : compatible c c.
Proof. induction c; auto. Qed.

Lemma compatible_antisym c1 c2 :
  compatible c1 c2 -> compatible c2 c1 -> c1 = c2.
Proof.
  induction 1 as [|e1 e2 t1 t2 H12 _ IH]; intro C; [reflexivity|].
  inversion C as [|? ? ? ? H21 Ct]; subst.
  f_equal; [|now apply IH].
  destruct H12 as [-> | ->]; [reflexivity|].
  destruct H21 as [<- | ->]; reflexivity.
Qed.

Lemma compatible_trans c1 c2 c3 :
  compatible c1 c2 -> compatible c2 c3 -> compatible c1 c3.
Proof.
  intro C. revert c3. induction C as [|e1 e2 t1 t2 H12 _ IH]; intros c3 C';
    inversion C' as [|? e3 ? t3 H23 Ct]; subst; auto.
  constructor; [|now apply IH].
  destruct H23 as [-> | ->]; [|now right]. exact H12.
Qed.

(** C8. [component_matches c1 c2] holds exactly when the two sequences
    have equal length and at every position the segments are equal or
    the second one is a parameter slot; it is reflexive, and it is not
    symmetric. *)
Theorem component_matches_characterised :
  (forall c1 c2 : components,
      component_matches c1 c2 = true <->
      (length c1 = length c2 /\
       forall i e1 e2, nth_error c1 i = Some e1 -> nth_error c2 i = Some e2 ->
                       e1 = e2 \/ e2 = None)) /\
  (forall c : components, component_matches c c = true) /\
  (exists c1 c2 : components,
      component_matches c1 c2 = true /\ component_matches c2 c1 = false).
Proof.
  split; [|split].
  - intros c1 c2. rewrite component_matches_compatible. split.
    + intro C. split; [now apply compatible_length|].
      induction C as [|e1 e2 t1 t2 H _ IH]; intros [|i] x y Hx Hy;
        simpl in *; try discriminate.
      * now inversion Hx; inversion Hy; subst.
      * eauto.
    + intros [L P]. revert c2 L P.
      induction c1 as [|e1 t1 IH]; intros [|e2 t2] L P;
        simpl in L; try discriminate; auto.
      constructor.
      * apply (P 0); reflexivity.
      * apply IH; [lia|]. intros i x y Hx Hy. apply (P (S i)); assumption.
  - intro c. apply component_matches_compatible, compatible_refl.
  - exists [Some "users"; Some "test_an_error"], [Some "users"; None].
    split; reflexivity.
Qed.

Lemma component_matches_antisym_aux c1 c2 :
  component_matches c1 c2 = true -> component_matches c2 c1 = true -> c1 = c2.
Proof.
  intros H12 H21. apply component_matches_compatible in H12, H21.
  now apply compatible_antisym.
Qed.

(** C10. [component_matches] is antisymmetric: two sequences that match
    each other in both directions are the same sequence, so of two
    distinct sequences at most one can be absorbed into the other. *)
Theorem component_matches_antisymmetric :
  forall c1 c2 : components,
    component_matches c1 c2 = true -> component_matches c2 c1 = true ->
    c1 = c2.
Proof.
  intros c1 c2. apply component_matches_antisym_aux.
Qed.

Lemma component_matches_antisymmetric_witness :
  component_matches [Some "users"; None] [Some "users"; None] = true /\
  [Some "users"; None] = [Some "users"; None :> component].
Proof.
  split; [reflexivity|].
  apply component_matches_antisymmetric; reflexivity.
Defined.
(* ------------------------------------------------------------------ *)
(** ** Schema inference *)

Lemma map_result_ok {A B : Type} (f : A -> result B) (l : list A) :
  Forall (fun a => exists b, f a = Ok b) l ->
  exists r, map_result f l = Ok r /\ length r = length l.
Proof.
  induction 1 as [|a l [b Hb] _ [r [Hr Hl]]]; simpl.
  - now exists [].
  - rewrite Hb, Hr. simpl. exists (b :: r). simpl. auto.
Qed.

Lemma map_result_raise {A B : Type} (f : A -> result B) (e : exn)
      (l : list A) :
  Forall (fun a => (exists b, f a = Ok b) \/ f a = Raise e) l ->
  Exists (fun a => f a = Raise e) l ->
  map_result f l = Raise e.
Proof.
  induction 1 as [|a l Ha Hl IH]; intro Ex; [inversion Ex|].
  simpl. destruct Ha as [[b Hb]|Ha].
  - rewrite Hb. simpl. inversion Ex as [? ? Hx|? ? Hx]; subst.
    + congruence.
    + now rewrite (IH Hx).
  - now rewrite Ha.
Qed.

Lemma generate_schema_trichotomy (body : json) :
  if meets_empty_array body
  then generate_schema body = Raise EmptyExampleArrayError
  else exists s, generate_schema body = Ok s.
Proof.
  induction body as [| b | n | s | l IH | m IH] using json_nested_ind;
    simpl; try (eexists; reflexivity).
  - destruct l as [|first rest]; [reflexivity|].
    inversion IH as [|? ? Hfirst _]; subst.
    destruct (meets_empty_array first).
    + now rewrite Hfirst.
    + destruct Hfirst as [s Hs]. rewrite Hs. simpl. eexists; reflexivity.
  - set (f := fun kv : string * json =>
                let* s := generate_schema (snd kv) in Ok (fst kv, s)).
    destruct (existsb (fun kv => meets_empty_array (snd kv)) m) eqn:E.
    + rewrite (map_result_raise f EmptyExampleArrayError m); [reflexivity| |].
      * eapply Forall_impl; [|exact IH]. intros [k v] H. simpl in H. unfold f.
        simpl. destruct (meets_empty_array v).
        -- right. now rewrite H.
        -- left. destruct H as [s Hs]. rewrite Hs. simpl. eexists; reflexivity.
      * apply existsb_exists in E. destruct E as [[k v] [Hin Hv]].
        apply Exists_exists. exists (k, v). split; [assumption|].
        rewrite Forall_forall in IH. specialize (IH _ Hin). simpl in *.
        rewrite Hv in IH. unfold f. simpl. now rewrite IH.
    + destruct (map_result_ok f m) as [r [Hr _]].
      * rewrite Forall_forall in IH |- *. intros [k v] Hin.
        specialize (IH _ Hin). simpl in IH.
        assert (Hv : meets_empty_array v = false).
        { destruct (meets_empty_array v) eqn:Ev; [|reflexivity].
          assert (existsb (fun kv => meets_empty_array (snd kv)) m = true)
            by (apply existsb_exists; exists (k, v); auto).
          congruence. }
        rewrite Hv in IH. destruct IH as [s Hs]. unfold f. simpl.
        rewrite Hs. simpl. eexists; reflexivity.
      * rewrite Hr. simpl. eexists; reflexivity.
Qed.

(** C6. [generate_schema] returns a schema for every value whose
    traversal (all members of an object, the first element of an array)
    meets no empty array, raises [EmptyExampleArrayError] exactly when
    the traversal meets one, and always raises it on the empty array. *)
Theorem generate_schema_total_up_to_empty_arrays :
  forall body : json,
    (meets_empty_array body = false ->
     exists s, generate_schema body = Ok s) /\
    (generate_schema body = Raise EmptyExampleArrayError <->
     meets_empty_array body = true) /\
    (forall e, generate_schema body = Raise e -> e = EmptyExampleArrayError) /\
    generate_schema (JArr []) = Raise EmptyExampleArrayError.
Proof.
  intro body. pose proof (generate_schema_trichotomy body) as T.
  destruct (meets_empty_array body) eqn:E.
  - repeat split; try discriminate; auto.
    intros e He. congruence.
  - destruct T as [s Hs]. repeat split; try discriminate; eauto; congruence.
Qed.
(* ------------------------------------------------------------------ *)
(** ** Buckets *)

Lemma keys_bucket_extend b c es :
  In c (keys b) -> keys (bucket_extend b c es) = keys b.
Proof.
  induction b as [|[c' es'] b IH]; simpl; [tauto|]. intros [H|H].
  - subst. now rewrite components_eqb_refl.
  - destruct (components_eqb c c'); simpl; [reflexivity|].
    f_equal. now apply IH.
Qed.

Lemma examples_of_bucket_extend_same b c es :
  In c (keys b) ->
  examples_of (bucket_extend b c es) c = examples_of b c ++ es.
Proof.
  induction b as [|[c' es'] b IH]; simpl; [tauto|]. intro H.
  destruct (components_eqb c c') eqn:E; simpl; rewrite E; [reflexivity|].
  apply IH. destruct H as [H|H]; [|assumption].
  subst. now rewrite components_eqb_refl in E.
Qed.

Lemma examples_of_bucket_extend_other b c es k :
  k <> c -> examples_of (bucket_extend b c es) k = examples_of b k.
Proof.
  intro N. induction b as [|[c' es'] b IH]; simpl.
  - apply components_eqb_neq in N. now rewrite N.
  - destruct (components_eqb c c') eqn:E; simpl.
    + apply components_eqb_spec in E. subst c'.
      apply components_eqb_neq in N. now rewrite N.
    + now rewrite IH.
Qed.

Lemma concat_bucket_extend b c es :
  Permutation (concat (map snd (bucket_extend b c es)))
              (concat (map snd b) ++ es).
Proof.
  induction b as [|[c' es'] b IH]; simpl.
  - now rewrite app_nil_r.
  - destruct (components_eqb c c'); simpl.
    + rewrite <- !app_assoc. apply Permutation_app_head, Permutation_app_comm.
    + rewrite <- app_assoc. now apply Permutation_app_head.
Qed.

Lemma bucket_pop_spec b c :
  In c (keys b) -> NoDup (keys b) ->
  exists b',
    bucket_pop b c = Ok (examples_of b c, b') /\
    (forall k, In k (keys b') <-> In k (keys b) /\ k <> c) /\
    NoDup (keys b') /\
    (forall k, k <> c -> examples_of b' k = examples_of b k) /\
    Permutation (concat (map snd b)) (examples_of b c ++ concat (map snd b')).
Proof.
  induction b as [|[c' es'] b IH]; simpl; [tauto|]. intros Hin Hnd.
  inversion Hnd as [|? ? Hnotin Hnd']; subst.
  destruct (components_eqb c c') eqn:E.
  - apply components_eqb_spec in E. subst c'. exists b.
    split; [reflexivity|]. split; [|split; [assumption|split]].
    + intro k. split.
      * intro H. split; [now right|]. intro; subst. contradiction.
      * intros [[H|H] N]; [congruence|assumption].
    + intros k N. apply components_eqb_neq in N. now rewrite N.
    + reflexivity.
  - assert (Hc : c <> c') by now apply components_eqb_neq.
    destruct Hin as [Hin|Hin]; [congruence|].
    destruct (IH Hin Hnd') as [b' [Hpop [Hkeys [Hnd'' [Hex Hperm]]]]].
    rewrite Hpop. simpl. exists ((c', es') :: b').
    split; [reflexivity|]. split; [|split; [|split]].
    + intro k. simpl. split.
      * intros [H|H]; [subst; auto|]. apply Hkeys in H. tauto.
      * intros [[H|H] N]; [auto|]. right. apply Hkeys. auto.
    + simpl. constructor; [|assumption]. intro H. apply Hkeys in H. tauto.
    + intros k N. simpl. destruct (components_eqb k c'); auto.
    + simpl. rewrite Hperm. rewrite !app_assoc.
      apply Permutation_app_tail, Permutation_app_comm.
Qed.

Lemma find_match_Some c1 b c2 :
  find_match c1 b = Some c2 ->
  In c2 (keys b) /\ c2 <> c1 /\ component_matches c1 c2 = true.
Proof.
  induction b as [|[c' es'] b IH]; simpl; [discriminate|].
  destruct (components_eqb c1 c') eqn:E.
  - intro H. destruct (IH H) as [? [? ?]]. auto.
  - destruct (component_matches c1 c') eqn:M.
    + intro H. inversion H; subst. repeat split; auto.
      apply components_eqb_neq in E. congruence.
    + intro H. destruct (IH H) as [? [? ?]]. auto.
Qed.

Lemma find_match_None c1 b :
  find_match c1 b = None ->
  forall c2, In c2 (keys b) -> c2 <> c1 -> component_matches c1 c2 = false.
Proof.
  induction b as [|[c' es'] b IH]; simpl; [tauto|].
  destruct (components_eqb c1 c') eqn:E.
  - intros H c2 [Hc|Hc] N; [|now apply IH].
    apply components_eqb_spec in E. congruence.
  - destruct (component_matches c1 c') eqn:M; [discriminate|].
    intros H c2 [Hc|Hc] N; [now subst|now apply IH].
Qed.

(** A key other than [c1] that [c1] matches is not the empty tuple, so
    the test [if match:] never discards a match. *)
Lemma match_is_truthy c1 c2 :
  c2 <> c1 -> component_matches c1 c2 = true -> match_truthy (Some c2) = true.
Proof.
  intros N M. destruct c2 as [|e t]; [|reflexivity].
  apply component_matches_compatible, compatible_length in M.
  destruct c1; [congruence|discriminate].
Qed.

Lemma refine_two_buckets c1 c2 e1 e2 :
  c1 <> c2 -> component_matches c1 c2 = true ->
  refine [(c1, e1); (c2, e2)] = Ok [(c2, e2 ++ e1)] /\
  refine [(c2, e2); (c1, e1)] = Ok [(c2, e2 ++ e1)].
Proof.
  intros N M.
  assert (M' : component_matches c2 c1 = false).
  { destruct (component_matches c2 c1) eqn:M'; [|reflexivity].
    exfalso. apply N. now apply component_matches_antisym_aux. }
  assert (E : components_eqb c1 c2 = false) by now apply components_eqb_neq.
  assert (E' : components_eqb c2 c1 = false)
    by (apply components_eqb_neq; congruence).
  assert (T : match_truthy (Some c2) = true)
    by (apply (match_is_truthy c1); congruence).
  unfold refine. simpl. unfold refine_step. simpl.
  rewrite !components_eqb_refl, E, E', M, M', T. simpl.
  rewrite !components_eqb_refl, E. simpl.
  rewrite !components_eqb_refl. simpl.
  rewrite M, T. simpl. rewrite components_eqb_refl. split; reflexivity.
Qed.

Lemma refine_step_spec b c1 :
  NoDup (keys b) -> In c1 (keys b) ->
  (find_match c1 b = None /\ refine_step b c1 = Ok b) \/
  (exists m b',
      find_match c1 b = Some m /\ refine_step b c1 = Ok b' /\
      NoDup (keys b') /\
      (forall k, In k (keys b') <-> In k (keys b) /\ k <> c1) /\
      examples_of b' m = examples_of b m ++ examples_of b c1 /\
      (forall k, k <> c1 -> k <> m -> examples_of b' k = examples_of b k) /\
      Permutation (concat (map snd b)) (concat (map snd b'))).
Proof.
  intros Hnd Hin. unfold refine_step.
  destruct (find_match c1 b) as [m|] eqn:F; [right|left; auto].
  destruct (find_match_Some _ _ _ F) as [Hm [Hne Hmatch]].
  rewrite (match_is_truthy c1 m Hne Hmatch).
  destruct (bucket_pop_spec b c1 Hin Hnd)
    as [b1 [Hpop [Hkeys [Hnd1 [Hex Hperm]]]]].
  rewrite Hpop. simpl.
  assert (Hm1 : In m (keys b1)) by (apply Hkeys; auto).
  exists m, (bucket_extend b1 m (examples_of b c1)).
  rewrite keys_bucket_extend by assumption.
  split; [reflexivity|]. split; [reflexivity|]. split; [assumption|].
  split; [exact Hkeys|]. split; [|split].
  - rewrite examples_of_bucket_extend_same by assumption.
    now rewrite Hex.
  - intros k N1 N2. rewrite examples_of_bucket_extend_other by assumption.
    now apply Hex.
  - rewrite concat_bucket_extend, Hperm. apply Permutation_app_comm.
Qed.

Lemma refine_loop_spec (b0 : buckets) :
  forall ks b,
    NoDup (keys b) -> NoDup ks ->
    (forall k, In k ks -> In k (keys b)) ->
    (forall k, In k (keys b) -> In k (keys b0)) ->
    (forall k, In k (keys b0) -> ~ In k ks ->
               (In k (keys b) <-> unmatched b0 k)) ->
    (forall k, In k (keys b0) ->
               exists k', In k' (keys b) /\ compatible k k' /\
                          incl (examples_of b0 k) (examples_of b k')) ->
    Permutation (concat (map snd b0)) (concat (map snd b)) ->
    exists out,
      refine_loop ks b = Ok out /\
      (forall k, In k (keys b0) -> (In k (keys out) <-> unmatched b0 k)) /\
      (forall k, In k (keys b0) ->
                 exists k', In k' (keys out) /\ compatible k k' /\
                            incl (examples_of b0 k) (examples_of out k')) /\
      Permutation (concat (map snd b0)) (concat (map snd out)) /\
      NoDup (keys out).
Proof.
  induction ks as [|c1 ks IH]; intros b Hnd Hks Hlive Hsub Hdone Hrep Hperm.
  - exists b. simpl. repeat split; auto; apply Hdone; auto.
  - inversion Hks as [|? ? Hc1 Hks']; subst.
    assert (Hin : In c1 (keys b)) by (apply Hlive; now left).
    simpl.
    destruct (refine_step_spec b c1 Hnd Hin)
      as [[F Hstep]|[m [b' [F [Hstep [Hnd' [Hkeys [Hexm [Hex Hp]]]]]]]]];
      rewrite Hstep; simpl.
    + (* [c1] matches no live key: it stays. *)
      apply IH; auto.
      * intros k Hk. apply Hlive. now right.
      * intros k Hk0 Hnot.
        destruct (components_eqb k c1) eqn:E.
        -- apply components_eqb_spec in E. subst k. split; [intros _|auto].
           intros c2 Hc2 N.
           destruct (component_matches c1 c2) eqn:M; [|reflexivity].
           destruct (Hrep c2 Hc2) as [k' [Hk' [Hc _]]].
           apply component_matches_compatible in M.
           assert (Hc1k : compatible c1 k') by (eapply compatible_trans; eauto).
           destruct (components_eqb k' c1) eqn:E'.
           ++ apply components_eqb_spec in E'. subst k'.
              exfalso. apply N. symmetry. now apply compatible_antisym.
           ++ apply components_eqb_neq in E'.
              apply component_matches_compatible in Hc1k.
              rewrite (find_match_None _ _ F k' Hk' E') in Hc1k. discriminate.
        -- apply components_eqb_neq in E. apply Hdone; [assumption|].
           intros [H|H]; congruence.
    + (* [c1] is folded into [m]. *)
      destruct (find_match_Some _ _ _ F) as [Hm [Hne Hmatch]].
      apply IH; auto.
      * intros k Hk. apply Hkeys. split; [apply Hlive; now right|].
        intro; subst. contradiction.
      * intros k Hk. apply Hkeys in Hk. apply Hsub. tauto.
      * intros k Hk0 Hnot.
        destruct (components_eqb k c1) eqn:E.
        -- apply components_eqb_spec in E. subst k. split.
           ++ intro H. apply Hkeys in H. tauto.
           ++ intro U. rewrite (U m (Hsub _ Hm) Hne) in Hmatch. discriminate.
        -- apply components_eqb_neq in E.
           rewrite <- (Hdone k Hk0) by (intros [H|H]; congruence).
           rewrite Hkeys. tauto.
      * intros k Hk0. destruct (Hrep k Hk0) as [k' [Hk' [Hc Hincl]]].
        destruct (components_eqb k' c1) eqn:E1.
        -- apply components_eqb_spec in E1. subst k'. exists m. split; [|split].
           ++ apply Hkeys. auto.
           ++ eapply compatible_trans; [exact Hc|].
              now apply component_matches_compatible.
           ++ rewrite Hexm. intros x Hx. apply in_or_app. right. now apply Hincl.
        -- apply components_eqb_neq in E1. exists k'. split; [|split]; auto.
           ++ apply Hkeys. auto.
           ++ destruct (components_eqb k' m) eqn:E2.
              ** apply components_eqb_spec in E2. subst k'. rewrite Hexm.
                 intros x Hx. apply in_or_app. left. now apply Hincl.
              ** apply components_eqb_neq in E2. now rewrite Hex.
      * now rewrite Hperm.
Qed.

(** When a sequence matches a different one, the second has a slot
    wherever the first has one, and a slot at some position where the
    first has a literal. *)
Lemma matched_is_more_parameterized c1 c2 :
  c1 <> c2 -> compatible c1 c2 ->
  (forall i, nth_error c1 i = Some None -> nth_error c2 i = Some None) /\
  (exists i s, nth_error c1 i = Some (Some s) /\ nth_error c2 i = Some None).
Proof.
  intros N C. induction C as [|e1 e2 t1 t2 H C IH]; [congruence|].
  split.
  - intros [|i] Hi; simpl in *.
    + injection Hi as ->. destruct H as [<- | ->]; reflexivity.
    + destruct (components_eqb t1 t2) eqn:E.
      * apply components_eqb_spec in E. now subst.
      * apply components_eqb_neq in E. now apply IH.
  - destruct H as [-> | ->].
    + destruct IH as [_ [i [s [H1 H2]]]]; [congruence|].
      exists (S i), s. auto.
    + destruct e1 as [s|].
      * exists 0, s. auto.
      * destruct IH as [_ [i [s [H1 H2]]]]; [congruence|].
        exists (S i), s. auto.
Qed.

(** C1, as stated, fails: of the two naive buckets [('users', None)] and
    [('users', 'test_an_error')] the second has a literal where the first
    has a slot, and the bucket that survives the refinement pass is the
    one with the slot, not the more literal one. *)
Lemma refinement_keeps_the_slotted_bucket :
  nth_error users_slot 1 = Some None /\
  nth_error users_literal 1 = Some (Some "test_an_error") /\
  (exists out,
      refine users_buckets = Ok out /\
      out = [(users_slot, [example_users_1; example_users_error])] /\
      In users_slot (keys out) /\ ~ In users_literal (keys out)) /\
  merge_examples (plain_generator "")
    [("/users/1", [example_users_1]);
     ("/users/test_an_error", [example_users_error])]
  = Ok [("/users/{param1}", [example_users_1; example_users_error])].
Proof.
  split; [reflexivity|]. split; [reflexivity|]. split.
  - exists [(users_slot, [example_users_1; example_users_error])].
    split; [vm_compute; reflexivity|]. split; [reflexivity|]. split.
    + now left.
    + intros [H|[]]. discriminate.
  - vm_compute. reflexivity.
Qed.

(** C1, amended.  The refinement pass returns, and over naive buckets
    with distinct keys: a bucket is dropped exactly when it matches some
    other naive bucket; the examples of every naive bucket end in a
    surviving bucket that it matches (itself when it survives); no
    example is lost or duplicated by the pass; and whenever [c1] matches
    a different [c2], [c2] has a slot wherever [c1] has one and a slot at
    some position where [c1] has a literal, so the absorbing bucket is
    the more parameterized one and the absorbed bucket the more literal
    one.  With two buckets, the matched bucket [c2] itself receives the
    examples of [c1]. *)
Theorem refinement_folds_literals_into_slots :
  forall b0 : buckets,
    NoDup (keys b0) ->
    exists out,
      refine b0 = Ok out /\
      (forall c1, In c1 (keys b0) ->
         (In c1 (keys out) <->
          forall c2, In c2 (keys b0) -> c2 <> c1 ->
                     component_matches c1 c2 = false)) /\
      (forall c1, In c1 (keys b0) ->
         exists c, In c (keys out) /\ component_matches c1 c = true /\
                   incl (examples_of b0 c1) (examples_of out c)) /\
      Permutation (concat (map snd b0)) (concat (map snd out)) /\
      (forall c1 c2, c1 <> c2 -> component_matches c1 c2 = true ->
         (forall i, nth_error c1 i = Some None -> nth_error c2 i = Some None) /\
         (exists i s, nth_error c1 i = Some (Some s) /\
                      nth_error c2 i = Some None)) /\
      (forall c1 c2 e1 e2, b0 = [(c1, e1); (c2, e2)] ->
         component_matches c1 c2 = true -> out = [(c2, e2 ++ e1)]) /\
      (forall c1 c2 e1 e2, b0 = [(c2, e2); (c1, e1)] ->
         component_matches c1 c2 = true -> out = [(c2, e2 ++ e1)]).
Proof.
  intros b0 Hnd.
  destruct (refine_loop_spec b0 (keys b0) b0)
    as [out [Hout [Hk [Hr [Hp _]]]]]; auto.
  - intros k Hk Hnot. contradiction.
  - intros k Hk. exists k. split; [assumption|]. split.
    + apply compatible_refl.
    + apply incl_refl.
  - exists out. split; [exact Hout|]. split; [exact Hk|]. split; [|split; [exact Hp|split; [|split]]].
    + intros c1 Hc1. destruct (Hr c1 Hc1) as [c [Hc [Hcomp Hincl]]].
      exists c. split; [assumption|]. split; [|assumption].
      now apply component_matches_compatible.
    + intros c1 c2 N M. apply matched_is_more_parameterized; [assumption|].
      now apply component_matches_compatible.
    + intros c1 c2 e1 e2 -> M.
      assert (N : c1 <> c2).
      { inversion Hnd as [|? ? Hn _]; subst. intro; subst. apply Hn. now left. }
      destruct (refine_two_buckets c1 c2 e1 e2 N M) as [R _].
      change (refine [(c1, e1); (c2, e2)] = Ok out) in Hout. congruence.
    + intros c1 c2 e1 e2 -> M.
      assert (N : c1 <> c2).
      { inversion Hnd as [|? ? Hn _]; subst. intro; subst. apply Hn. now left. }
      destruct (refine_two_buckets c1 c2 e1 e2 N M) as [_ R].
      change (refine [(c2, e2); (c1, e1)] = Ok out) in Hout. congruence.
Qed.

Lemma users_buckets_distinct : NoDup (keys users_buckets).
Proof.
  repeat constructor; simpl; intuition discriminate.
Defined.

Lemma refinement_folds_literals_into_slots_witness :
  NoDup (keys users_buckets) /\ exists out, refine users_buckets = Ok out.
Proof.
  split; [exact users_buckets_distinct|].
  destruct (refinement_folds_literals_into_slots
              users_buckets users_buckets_distinct) as [out [H _]].
  exists out. exact H.
Defined.

(* ------------------------------------------------------------------ *)
(** ** The two passes of [_merge_examples] keep every example *)

Lemma keys_bucket_extend_new b c es :
  ~ In c (keys b) -> keys (bucket_extend b c es) = keys b ++ [c].
Proof.
  induction b as [|[c' es'] b IH]; simpl; [reflexivity|]. intro H.
  destruct (components_eqb c c') eqn:E.
  - apply components_eqb_spec in E. subst. tauto.
  - simpl. f_equal. apply IH. tauto.
Qed.

Lemma NoDup_bucket_extend b c es :
  NoDup (keys b) -> NoDup (keys (bucket_extend b c es)).
Proof.
  intro H. destruct (in_dec (list_eq_dec (fun x y : component =>
      ltac:(decide equality; apply string_dec))) c (keys b)) as [Hin|Hout].
  - now rewrite keys_bucket_extend.
  - rewrite keys_bucket_extend_new by assumption.
    apply NoDup_app; [assumption|repeat constructor; auto| ].
    intros x Hx [<-|[]]. contradiction.
Qed.

Lemma naive_buckets_spec self pte :
  forall acc out,
    NoDup (keys acc) ->
    naive_buckets self pte acc = Ok out ->
    NoDup (keys out) /\
    Permutation (concat (map snd acc) ++ concat (map snd pte))
                (concat (map snd out)).
Proof.
  induction pte as [|[p exs] pte IH]; intros acc out Hnd H; simpl in H.
  - inversion H; subst. simpl. now rewrite app_nil_r.
  - destruct (get_components self p) as [cs|e]; simpl in H; [|discriminate].
    destruct (IH _ _ (NoDup_bucket_extend acc cs exs Hnd) H) as [Hout Hperm].
    split; [assumption|]. rewrite <- Hperm. simpl.
    rewrite concat_bucket_extend. now rewrite app_assoc.
Qed.

Lemma naive_buckets_raises_IndexError self pte :
  forall acc e, naive_buckets self pte acc = Raise e -> e = IndexError.
Proof.
  induction pte as [|[p exs] pte IH]; intros acc e H; simpl in H;
    [discriminate|].
  destruct (get_components self p) as [cs|e'] eqn:G; simpl in H.
  - eapply IH; eauto.
  - inversion H; subst. unfold get_components in G.
    repeat match type of G with
           | context [match ?x with _ => _ end] => destruct x
           end; congruence.
Qed.

(** The only exception [_merge_examples] raises is the [IndexError] of
    [_get_components]; when it returns, the buckets left by the
    refinement pass hold every stored example exactly once, and the
    result is their image under the final dictionary comprehension. *)
Lemma merge_examples_passes self pte :
  (forall e, merge_examples self pte = Raise e -> e = IndexError) /\
  (forall out, merge_examples self pte = Ok out ->
     exists refined,
       out = templated refined [] /\
       NoDup (keys refined) /\
       Permutation (concat (map snd pte)) (concat (map snd refined))).
Proof.
  unfold merge_examples.
  destruct (naive_buckets self pte []) as [naive|e0] eqn:N; simpl.
  - destruct (naive_buckets_spec self pte [] naive (NoDup_nil _) N)
      as [Hnd Hperm].
    destruct (refine_loop_spec naive (keys naive) naive)
      as [refined [Href [Hk [_ [Hp Hnd']]]]]; auto.
    + intros k Hk Hnot. contradiction.
    + intros k Hk. exists k. split; [assumption|]. split.
      * apply compatible_refl.
      * apply incl_refl.
    + change (refine_loop (keys naive) naive) with (refine naive) in Href.
      rewrite Href. simpl. split; [discriminate|].
      intros out H. inversion H; subst. exists refined.
      split; [reflexivity|]. split.
      * exact Hnd'.
      * simpl in Hperm. now rewrite Hperm.
  - split; [|discriminate]. intros e H. inversion H; subst.
    eapply naive_buckets_raises_IndexError; eauto.
Qed.

(* ------------------------------------------------------------------ *)
(** ** Splitting and joining paths *)

Lemma split_nonempty s : Str.split s <> [].
Proof.
  destruct s as [|c s]; simpl; [discriminate|].
  destruct (Ascii.eqb c "/"); [discriminate|].
  destruct (Str.split s); discriminate.
Qed.

Lemma split_no_slash s : Forall (fun seg => no_slash seg = true) (Str.split s).
Proof.
  induction s as [|c s IH]; simpl.
  - repeat constructor.
  - destruct (Ascii.eqb c "/") eqn:E.
    + constructor; [reflexivity|assumption].
    + destruct (Str.split s) as [|seg rest]; [repeat constructor; simpl|].
      * unfold no_slash. simpl. now rewrite E.
      * inversion IH; subst. constructor; [|assumption].
        unfold no_slash in *. simpl. now rewrite E.
Qed.

Lemma split_segment_then_slash seg rest :
  no_slash seg = true ->
  Str.split (seg ++ String "/" rest) = seg :: Str.split rest.
Proof.
  unfold no_slash. induction seg as [|c seg IH]; simpl; intro H.
  - reflexivity.
  - apply andb_true_iff in H. destruct H as [Hc Hs].
    apply negb_true_iff in Hc. rewrite Hc, (IH Hs). reflexivity.
Qed.

Lemma split_single_segment seg :
  no_slash seg = true -> Str.split seg = [seg].
Proof.
  unfold no_slash. induction seg as [|c seg IH]; simpl; intro H.
  - reflexivity.
  - apply andb_true_iff in H. destruct H as [Hc Hs].
    apply negb_true_iff in Hc. rewrite Hc, (IH Hs). reflexivity.
Qed.

Lemma split_join l :
  l <> [] -> Forall (fun seg => no_slash seg = true) l ->
  Str.split (Str.join l) = l.
Proof.
  induction l as [|x l IH]; [congruence|]. intros _ H.
  inversion H as [|? ? Hx Hl]; subst.
  destruct l as [|y l].
  - simpl. now apply split_single_segment.
  - change (Str.join (x :: y :: l))
      with (x ++ String "/" (Str.join (y :: l)))%string.
    rewrite split_segment_then_slash by assumption.
    f_equal. apply IH; [discriminate|assumption].
Qed.

(* ------------------------------------------------------------------ *)
(** ** Rendered slots are recognised as parameters *)

Lemma string_of_uint_digits (d : Decimal.uint) :
  Str.all_chars decimal_digit (NilEmpty.string_of_uint d) = true.
Proof. induction d; simpl; auto. Qed.

Lemma all_chars_impl (p q : ascii -> bool) s :
  (forall c, p c = true -> q c = true) ->
  Str.all_chars p s = true -> Str.all_chars q s = true.
Proof.
  intro Hpq. induction s as [|c s IH]; simpl; [reflexivity|].
  intro H. apply andb_true_iff in H. destruct H as [Hc Hs].
  now rewrite (Hpq c Hc), (IH Hs).
Qed.

Lemma all_chars_app p s t :
  Str.all_chars p (s ++ t) = Str.all_chars p s && Str.all_chars p t.
Proof.
  induction s as [|c s IH]; simpl; [reflexivity|].
  now rewrite IH, andb_assoc.
Qed.

Lemma decimal_digit_cases c :
  decimal_digit c = true ->
  Ascii.eqb c "/" = false /\ Ascii.eqb c "010" = false
  /\ Ascii.eqb c "}" = false.
Proof.
  unfold decimal_digit. intro H.
  apply andb_true_iff in H. destruct H as [H1 H2].
  apply Nat.leb_le in H1, H2.
  repeat split; apply Ascii.eqb_neq; intro E; rewrite E in H1, H2;
    vm_compute in H1, H2; lia.
Qed.

Lemma dot_plus_close_digits ds :
  Str.all_chars decimal_digit ds = true ->
  Str.dot_plus_close true (ds ++ "}") = true.
Proof.
  induction ds as [|c ds IH]; simpl; intro H; [reflexivity|].
  apply andb_true_iff in H. destruct H as [Hc Hs].
  destruct (decimal_digit_cases c Hc) as [_ [Hnl _]].
  rewrite Hnl, (IH Hs). simpl. apply orb_true_r.
Qed.

Lemma rendered_slot_is_param i :
  is_param ("{param" ++ Str.of_nat i ++ "}") = true.
Proof.
  unfold is_param. apply orb_true_iff. left.
  unfold Str.of_nat. simpl.
  now rewrite dot_plus_close_digits by apply string_of_uint_digits.
Qed.

Lemma rendered_slot_no_slash i :
  no_slash ("{param" ++ Str.of_nat i ++ "}") = true.
Proof.
  unfold no_slash, Str.of_nat. simpl. rewrite all_chars_app. simpl.
  rewrite andb_true_r. eapply all_chars_impl; [|apply string_of_uint_digits].
  intros c Hc. destruct (decimal_digit_cases c Hc) as [H _]. now rewrite H.
Qed.

(* ------------------------------------------------------------------ *)
(** ** Tokenising a templated path *)

Lemma tag_literal_ok e : no_slash e = true -> literal_ok (tag e).
Proof.
  intro H. unfold tag. destruct (is_param e) eqn:E; simpl; auto.
Qed.

Lemma Forall_skipn {A : Type} (P : A -> Prop) n (l : list A) :
  Forall P l -> Forall P (skipn n l).
Proof.
  revert l. induction n as [|n IH]; intros [|a l] H; simpl; auto.
  inversion H; auto.
Qed.

Lemma get_components_literals self p cs :
  get_components self p = Ok cs -> Forall literal_ok cs.
Proof.
  unfold get_components.
  set (all := map _ (Str.split p)).
  assert (Hall : Forall literal_ok all).
  { unfold all. pose proof (split_no_slash p) as H.
    induction H as [|e l He Hl IH]; simpl; constructor; auto.
    now apply tag_literal_ok. }
  set (bc := map Some (Str.split (base_path self))).
  assert (Hs : Forall literal_ok
                 (if components_eqb bc (firstn (length bc) all)
                  then skipn (length bc) all else all)).
  { destruct (components_eqb bc _); [now apply Forall_skipn|assumption]. }
  destruct (if components_eqb bc _ then _ else _) as [|c rest];
    [discriminate|].
  destruct (component_eqb c (Some "")); intro H; inversion H; subst; auto.
  now inversion Hs.
Qed.

Lemma tag_render i cs :
  Forall literal_ok cs -> map tag (render i cs) = cs.
Proof.
  intro H. revert i. induction H as [|c cs Hc _ IH]; intro i;
    [reflexivity|].
  destruct c as [s|]; cbn [render map].
  - destruct Hc as [Hp _]. unfold tag at 1. rewrite Hp. simpl. now rewrite IH.
  - unfold tag at 1. rewrite rendered_slot_is_param. simpl. now rewrite IH.
Qed.

Lemma render_no_slash i cs :
  Forall literal_ok cs ->
  Forall (fun seg => no_slash seg = true) (render i cs).
Proof.
  intro H. revert i. induction H as [|c cs Hc _ IH]; intro i;
    [constructor|].
  destruct c as [s|]; cbn [render]; constructor; auto.
  - now destruct Hc.
  - apply rendered_slot_no_slash.
Qed.

Lemma render_nonempty i cs : cs <> [] -> render i cs <> [].
Proof. destruct cs as [|[s|] cs]; simpl; congruence. Qed.

(** The tokens of a templated path, before the base path is stripped:
    an empty first segment, then the components themselves. *)
Lemma tokens_of_templated_path cs :
  Forall literal_ok cs ->
  map (fun e => if negb (is_param e) then Some e else None)
      (Str.split (build_paramaterized_path cs))
  = Some "" :: match cs with [] => [Some ""] | _ => cs end.
Proof.
  intro H. unfold build_paramaterized_path.
  change (Str.split (String "/" (Str.join (render 0 cs))))
    with ("" :: Str.split (Str.join (render 0 cs))).
  destruct cs as [|c cs']; [reflexivity|].
  rewrite split_join.
  - change (map _ ("" :: render 0 (c :: cs')))
      with (Some "" :: map tag (render 0 (c :: cs'))).
    now rewrite tag_render.
  - apply render_nonempty. discriminate.
  - now apply render_no_slash.
Qed.

(** C9, as stated, fails: with base path [/api] the raw path
    [/api/api/x] has components [('api', 'x')], whose templated path
    [/api/x] tokenises to [('x',)]; with the empty base path the raw
    path [//] has the component [('',)], whose templated path [/]
    tokenises to the empty tuple. *)
Lemma retokenizing_can_strip_again :
  get_components (plain_generator "/api") "/api/api/x"
  = Ok [Some "api"; Some "x"] /\
  build_paramaterized_path [Some "api"; Some "x"] = "/api/x" /\
  get_components (plain_generator "/api") "/api/x" = Ok [Some "x"] /\
  get_components (plain_generator "") "//" = Ok [Some ""] /\
  build_paramaterized_path [Some ""] = "/" /\
  get_components (plain_generator "") "/" = Ok [].
Proof. repeat split; vm_compute; reflexivity. Qed.

(** C9, amended.  For components [cs] obtained from a raw path, building
    the templated path and tokenising it again with the same base path
    returns [cs] itself (slots at the same positions, the same literals
    elsewhere) whenever either the base path is empty and [cs] does not
    begin with an empty literal segment, or [cs] is not empty and the
    segments of the base path are not a prefix of the segments of the
    templated path (an empty segment followed by [cs]). *)
Theorem retokenizing_templated_path :
  forall (self : Generator) (p : string) (cs : components),
    get_components self p = Ok cs ->
    (base_path self = "" /\ hd_error cs <> Some (Some "")) \/
    (cs <> [] /\ base_is_prefix self (Some "" :: cs) = false) ->
    get_components self (build_paramaterized_path cs) = Ok cs.
Proof.
  intros self p cs Hcs Hcond.
  pose proof (get_components_literals _ _ _ Hcs) as Hlit.
  unfold get_components. rewrite (tokens_of_templated_path cs Hlit).
  destruct Hcond as [[Hbase Hhd]|[Hne Hpre]].
  - rewrite Hbase. simpl.
    destruct cs as [|c cs']; simpl; [reflexivity|].
    destruct (component_eqb c (Some "")) eqn:E; [|reflexivity].
    apply component_eqb_spec in E. subst c. now elim Hhd.
  - destruct cs as [|c cs']; [congruence|].
    unfold base_is_prefix in Hpre. cbv beta iota zeta in Hpre |- *.
    match goal with
    | |- context [if ?b then _ else _] =>
        replace b with false by (symmetry; exact Hpre)
    end.
    reflexivity.
Qed.

Lemma retokenizing_templated_path_witness :
  get_components (plain_generator "/api")
    (build_paramaterized_path [Some "users"; None])
  = Ok [Some "users"; None].
Proof.
  apply (retokenizing_templated_path (plain_generator "/api") "/api/users/1").
  - reflexivity.
  - right. split; [discriminate|reflexivity].
Defined.

(* ------------------------------------------------------------------ *)
(** ** Path merging at degenerate paths *)

(** C5.  [_merge_examples] is neither total nor lossless at
    degenerate paths.  A raw path equal to the base path leaves the empty tuple after stripping, and
    [_get_components] then indexes it: [_merge_examples] raises
    [IndexError].  The raw paths [/] and [//] give the distinct buckets
    [()] and [('',)], which both build the templated path [/]: the final
    dictionary keeps one of them and the examples of the other are
    lost. *)
Theorem merge_examples_raises_or_drops :
  merge_examples (plain_generator "/api") [("/api", [example_users_1])]
  = Raise IndexError /\
  merge_examples (plain_generator "") [("", [example_users_1])]
  = Raise IndexError /\
  naive_buckets (plain_generator "")
    [("/", [example_users_1]); ("//", [example_users_error])] []
  = Ok [([], [example_users_1]); ([Some ""], [example_users_error])] /\
  merge_examples (plain_generator "")
    [("/", [example_users_1]); ("//", [example_users_error])]
  = Ok [("/", [example_users_error])].
Proof. repeat split; vm_compute; reflexivity. Qed.

(* ------------------------------------------------------------------ *)
(** ** Required query parameters *)

(** C2.  A query parameter can end required although an example
    lacks it.  [_merge_query_params] keeps the incoming copy of a query parameter that both lists have,
    and that copy is freshly built with [required = True]: a parameter
    missing from the second of three examples is optional after two
    examples and required again after the third.  A first example with
    no parameter at all leaves an empty list, which [if params:] skips,
    so a parameter first seen in the second example stays required. *)
Theorem required_flag_is_reset_by_later_examples :
  final_parameters
    (generate_path (plain_generator "") "/items"
       [example_items_a1; example_items_plain]) "get"
  = Some [optional_query_a] /\
  final_parameters
    (generate_path (plain_generator "") "/items"
       [example_items_a1; example_items_plain; example_items_a2]) "get"
  = Some [required_query_a] /\
  final_parameters
    (generate_path (plain_generator "") "/items"
       [example_items_plain; example_items_a1]) "get"
  = Some [required_query_a].
Proof. repeat split; vm_compute; reflexivity. Qed.

(* ------------------------------------------------------------------ *)
(** ** Empty arrays during generation *)

(** C4.  [EmptyExampleArrayError] is caught for the response body and
    not for the request.  For every example with a JSON response whose body meets an
    empty array, the error is caught: the step of [_generate_path]
    returns, the responses of the verb are left as they were and the
    request parameters are still recorded.  An empty array in the
    request body or in a query value raises [EmptyExampleArrayError] out
    of [_generate_path] and out of [generate_paths], because the call of
    [_generate_request_params] is outside the [try]. *)
Theorem empty_array_in_request_is_not_caught :
  (forall self p schema ex ps,
      content_type (response ex) = "application/json" ->
      meets_empty_array (resp_data (response ex)) = true ->
      generate_request_params self p (request ex)
        (match op_parameters (current_operation schema ex) with
         | Some old => old
         | None => []
         end) = Ok ps ->
      generate_path_step self p schema ex
      = Ok (dict_set schema (Str.lower (method (request ex)))
              {| op_responses :=
                   match default self with
                   | Some d =>
                       dict_set (op_responses (current_operation schema ex))
                         "default" d
                   | None => op_responses (current_operation schema ex)
                   end;
                 op_description := str_or (description ex) "TODO";
                 op_summary := Some (str_or (summary ex) "");
                 op_parameters := Some ps |})) /\
  generate_path (plain_generator "") "/x" [example_empty_in_response]
  = Ok [("get", {| op_responses := [];
                   op_description := "TODO";
                   op_summary := Some "";
                   op_parameters := Some [] |})] /\
  generate_path (plain_generator "") "/x" [example_empty_in_request]
  = Raise EmptyExampleArrayError /\
  generate_path (plain_generator "") "/x" [example_empty_in_query]
  = Raise EmptyExampleArrayError /\
  (forall validate,
      generate_paths validate (plain_generator "")
        [("/x", [example_empty_in_request])]
      = Raise EmptyExampleArrayError).
Proof.
  split; [|repeat split; vm_compute; reflexivity].
  intros self p schema ex ps Hct Hempty Hreq.
  unfold generate_path_step, current_operation in *.
  rewrite Hct. change ("application/json" =? "application/json")%string with true.
  cbv iota.
  unfold generate_response_params.
  pose proof (generate_schema_trichotomy (resp_data (response ex))) as T.
  rewrite Hempty in T. rewrite T. cbn [bind].
  rewrite Hreq. cbn [bind fst snd]. reflexivity.
Qed.

(* ------------------------------------------------------------------ *)
(** ** Dictionary lookups after an assignment *)

Lemma dict_get_set_same {V : Type} (d : list (string * V)) k v :
  dict_get (dict_set d k v) k = Some v.
Proof.
  induction d as [|[k' v'] d IH]; simpl.
  - now rewrite String.eqb_refl.
  - destruct (String.eqb k k') eqn:E; simpl; rewrite E; auto.
Qed.

Lemma dict_get_set_other {V : Type} (d : list (string * V)) k k' v :
  k' <> k -> dict_get (dict_set d k v) k' = dict_get d k'.
Proof.
  intro N. induction d as [|[k0 v0] d IH]; simpl.
  - apply String.eqb_neq in N. now rewrite N.
  - destruct (String.eqb k k0) eqn:E; simpl.
    + apply String.eqb_eq in E. subst k0.
      apply String.eqb_neq in N. now rewrite N.
    + now rewrite IH.
Qed.

Lemma dict_get_not_key {V : Type} (d : list (string * V)) k :
  existsb (String.eqb k) (map fst d) = false -> dict_get d k = None.
Proof.
  induction d as [|[k' v'] d IH]; simpl; [reflexivity|].
  intro H. apply orb_false_iff in H. destruct H as [H1 H2].
  rewrite H1. auto.
Qed.

(* ------------------------------------------------------------------ *)
(** ** [update_dict] entry by entry *)

Lemma update_dict_entries es d :
  update_dict d (VDict es) = update_entries es d.
Proof.
  revert d. induction es as [|[k v] es IH]; intro d; [reflexivity|].
  unfold update_dict in *. simpl.
  destruct v as [s|b|e].
  - destruct (setitem d k (VStr s)) as [d'|x]; simpl; [apply IH|reflexivity].
  - destruct (setitem d k (VBool b)) as [d'|x]; simpl; [apply IH|reflexivity].
  - destruct (get_or_empty d k) as [sub|x]; simpl; [|reflexivity].
    match goal with
    | |- bind ?m _ = bind ?m' _ => change m with m'; destruct m'
    end; simpl; [|reflexivity].
    destruct (setitem d k a) as [d'|x]; simpl; [apply IH|reflexivity].
Qed.

Lemma update_dict_leaf d u : is_leaf u = true -> exists e, update_dict d u = Raise e.
Proof. destruct u; simpl; try discriminate; intros _; eexists; reflexivity. Qed.

Lemma update_entries_on_leaf k v es d :
  is_leaf d = true -> exists e, update_entries ((k, v) :: es) d = Raise e.
Proof.
  destruct d; try discriminate; intros _; simpl;
    destruct v; simpl; eexists; reflexivity.
Qed.

(** What [update_dict] leaves at each key: an untouched key keeps the
    entry of [d]; a leaf of [u] replaces the entry; a dictionary of [u]
    is merged into [d.get(k, {})]. *)
Lemma update_entries_spec es :
  forall de r,
    distinct (map fst es) = true ->
    update_entries es (VDict de) = Ok r ->
    exists re,
      r = VDict re /\
      (forall k, dict_get es k = None -> dict_get re k = dict_get de k) /\
      (forall k v, dict_get es k = Some v -> is_leaf v = true ->
                   dict_get re k = Some v) /\
      (forall k v, dict_get es k = Some v -> is_leaf v = false ->
                   exists merged,
                     update_dict (match dict_get de k with
                                  | Some x => x
                                  | None => VDict []
                                  end) v = Ok merged /\
                     dict_get re k = Some merged).
Proof.
  induction es as [|[k0 v0] es IH]; intros de r Hd Hr.
  - simpl in Hr. inversion Hr; subst. exists de.
    split; [reflexivity|]. split; [reflexivity|].
    split; intros k v H; discriminate.
  - simpl in Hd. apply andb_true_iff in Hd. destruct Hd as [Hk0 Hd].
    apply negb_true_iff in Hk0. pose proof (dict_get_not_key es k0 Hk0) as Hnone.
    assert (Hstep : exists x,
               update_entries es (VDict (dict_set de k0 x)) = Ok r /\
               (is_leaf v0 = true -> x = v0) /\
               (is_leaf v0 = false ->
                update_dict (match dict_get de k0 with
                             | Some y => y
                             | None => VDict []
                             end) v0 = Ok x)).
    { destruct v0 as [s|b|e];
        cbn [update_entries get_or_empty setitem bind] in Hr.
      - exists (VStr s). repeat split; auto; discriminate.
      - exists (VBool b). repeat split; auto; discriminate.
      - destruct (update_dict _ (VDict e)) as [m|x] eqn:Hm;
          cbn [bind] in Hr; [|discriminate].
        exists m. repeat split; auto; discriminate. }
    destruct Hstep as [x [Hrest [Hleaf Hdict]]].
    destruct (IH _ _ Hd Hrest) as [re [-> [Hkeep [Hl Hm]]]].
    exists re. split; [reflexivity|]. split; [|split].
    + intros k Hk. simpl in Hk. destruct (String.eqb k k0) eqn:E; [discriminate|].
      rewrite (Hkeep k Hk). apply dict_get_set_other.
      now apply String.eqb_neq.
    + intros k v Hk Hv. simpl in Hk. destruct (String.eqb k k0) eqn:E.
      * apply String.eqb_eq in E. subst k. inversion Hk; subst v0.
        rewrite (Hkeep k0 Hnone), dict_get_set_same. now rewrite (Hleaf Hv).
      * now apply Hl.
    + intros k v Hk Hv. simpl in Hk. destruct (String.eqb k k0) eqn:E.
      * apply String.eqb_eq in E. subst k. inversion Hk; subst v0.
        exists x. split; [now apply Hdict|].
        now rewrite (Hkeep k0 Hnone), dict_get_set_same.
      * destruct (Hm k v Hk Hv) as [merged [H1 H2]].
        exists merged. split; [|assumption].
        rewrite dict_get_set_other in H1; [assumption|].
        now apply String.eqb_neq.
Qed.

Lemma dict_get_distinct_keys es k v :
  forallb (fun kv => distinct_keys (snd kv)) es = true ->
  dict_get es k = Some v -> distinct_keys v = true.
Proof.
  induction es as [|[k' v'] es IH]; simpl; [discriminate|].
  intro H. apply andb_true_iff in H. destruct H as [H1 H2].
  destruct (String.eqb k k'); [|now apply IH].
  intro E. now inversion E; subst.
Qed.

(** Every leaf of [u], at any depth, is in the result at the same path
    of keys. *)
Lemma update_dict_keeps_leaves_of_u keypath :
  forall u d r x,
    distinct_keys u = true ->
    update_dict d u = Ok r ->
    leaf_at u keypath = Some x -> leaf_at r keypath = Some x.
Proof.
  induction keypath as [|k rest IH]; intros u d r x Hd Hr Hx.
  - simpl in Hx. destruct (is_leaf u) eqn:L; [|discriminate].
    destruct (update_dict_leaf d u L) as [e He]. congruence.
  - simpl in Hx. destruct u as [s|b|es]; try discriminate.
    destruct (dict_get es k) as [v|] eqn:Hk; [|discriminate].
    rewrite update_dict_entries in Hr.
    simpl in Hd. apply andb_true_iff in Hd. destruct Hd as [Hd1 Hd2].
    destruct d as [s|b|de].
    + destruct es as [|[k' v'] es']; [discriminate|].
      destruct (update_entries_on_leaf k' v' es' (VStr s) eq_refl). congruence.
    + destruct es as [|[k' v'] es']; [discriminate|].
      destruct (update_entries_on_leaf k' v' es' (VBool b) eq_refl). congruence.
    + destruct (update_entries_spec es de r Hd1 Hr) as [re [-> [_ [Hl Hm]]]].
      simpl. destruct (is_leaf v) eqn:L.
      * rewrite (Hl k v Hk L).
        destruct rest; simpl in *; [assumption|].
        destruct v; discriminate.
      * destruct (Hm k v Hk L) as [merged [H1 H2]]. rewrite H2.
        eapply IH; eauto. eapply dict_get_distinct_keys; eauto.
Qed.

(* ------------------------------------------------------------------ *)
(** ** Merging generated schemas never raises *)

Lemma schema_shaped_entries es :
  schema_shaped (VDict es)
  = forallb (fun kv => entry_ok (fst kv) (snd kv)) es.
Proof. reflexivity. Qed.

Lemma forallb_dict_set {V : Type} (p : string * V -> bool) d k v :
  forallb p d = true -> p (k, v) = true -> forallb p (dict_set d k v) = true.
Proof.
  intros Hd Hv. induction d as [|[k' v'] d IH]; simpl in *.
  - now rewrite Hv.
  - apply andb_true_iff in Hd. destruct Hd as [H1 H2].
    destruct (String.eqb k k') eqn:E; simpl.
    + apply String.eqb_eq in E. subst k'. now rewrite Hv, H2.
    + now rewrite H1, IH.
Qed.

Lemma dict_get_forallb {V : Type} (p : string * V -> bool) d k v :
  forallb p d = true -> dict_get d k = Some v -> p (k, v) = true.
Proof.
  induction d as [|[k' v'] d IH]; simpl; [discriminate|].
  intro H. apply andb_true_iff in H. destruct H as [H1 H2].
  destruct (String.eqb k k') eqn:E; [|now apply IH].
  apply String.eqb_eq in E. subst k'. intro G. now inversion G; subst.
Qed.

Lemma update_entries_schema es :
  Forall (fun kv => merges_shaped (snd kv)) es ->
  forallb (fun kv => entry_ok (fst kv) (snd kv)) es = true ->
  forall de, schema_shaped (VDict de) = true ->
             exists r, update_entries es (VDict de) = Ok r
                       /\ schema_shaped r = true.
Proof.
  induction 1 as [|[k v] es [Hs Hp] _ IH]; intros Hes de Hde.
  - exists (VDict de). auto.
  - simpl in Hes. apply andb_true_iff in Hes. destruct Hes as [Hkv Hes].
    simpl in Hs, Hp.
    assert (Hsub : forall x, entry_ok k x = true ->
                             exists r, update_entries es
                                         (VDict (dict_set de k x)) = Ok r
                                       /\ schema_shaped r = true).
    { intros x Hx. apply (IH Hes). rewrite schema_shaped_entries in *.
      now apply forallb_dict_set. }
    assert (Hold : forall y, dict_get de k = Some y -> entry_ok k y = true).
    { intros y Hy. rewrite schema_shaped_entries in Hde.
      apply (dict_get_forallb _ _ _ _ Hde Hy). }
    unfold entry_ok in Hkv, Hsub, Hold.
    destruct (String.eqb k "properties") eqn:E1;
      [|destruct (String.eqb k "items") eqn:E2].
    + destruct v as [s|b|ps]; try discriminate.
      cbn [update_entries get_or_empty bind].
      destruct (Hp Hkv (match dict_get de k with
                        | Some x => x
                        | None => VDict []
                        end)) as [m [Hm Hm']].
      { destruct (dict_get de k) as [y|] eqn:G; [now apply Hold|reflexivity]. }
      rewrite Hm. cbn [bind setitem]. now apply Hsub.
    + destruct v as [s|b|ps]; try discriminate.
      cbn [update_entries get_or_empty bind].
      destruct (Hs Hkv (match dict_get de k with
                        | Some x => x
                        | None => VDict []
                        end)) as [m [Hm Hm']].
      { destruct (dict_get de k) as [y|] eqn:G; [now apply Hold|reflexivity]. }
      rewrite Hm. cbn [bind setitem]. now apply Hsub.
    + destruct v as [s|b|ps]; try discriminate;
        cbn [update_entries setitem bind]; now apply Hsub.
Qed.

Lemma update_entries_properties es :
  Forall (fun kv => merges_shaped (snd kv)) es ->
  forallb (fun kv => schema_shaped (snd kv)) es = true ->
  forall de, properties_shaped (VDict de) = true ->
             exists r, update_entries es (VDict de) = Ok r
                       /\ properties_shaped r = true.
Proof.
  induction 1 as [|[k v] es [Hs _] _ IH]; intros Hes de Hde.
  - exists (VDict de). auto.
  - simpl in Hes. apply andb_true_iff in Hes. destruct Hes as [Hkv Hes].
    simpl in Hs. destruct v as [s|b|ps]; try discriminate.
    cbn [update_entries get_or_empty bind].
    destruct (Hs Hkv (match dict_get de k with
                      | Some x => x
                      | None => VDict []
                      end)) as [m [Hm Hm']].
    { destruct (dict_get de k) as [y|] eqn:G; [|reflexivity].
      apply (dict_get_forallb (fun p => schema_shaped (snd p)) _ _ _ Hde G). }
    rewrite Hm. cbn [bind setitem]. apply (IH Hes).
    simpl. simpl in Hde.
    now apply (forallb_dict_set (fun p => schema_shaped (snd p))).
Qed.

Lemma update_dict_shaped u : merges_shaped u.
Proof.
  induction u as [s|b|es IH] using value_nested_ind;
    try (split; discriminate).
  split; intros Hu d Hd; rewrite update_dict_entries;
    destruct d as [s|b|de]; try discriminate.
  - now apply update_entries_schema.
  - now apply update_entries_properties.
Qed.

(* ------------------------------------------------------------------ *)
(** ** The schemas [_generate_schema] builds *)

Lemma map_result_Forall2 {A B : Type} (f : A -> result B) l r :
  map_result f l = Ok r -> Forall2 (fun a b => f a = Ok b) l r.
Proof.
  revert r. induction l as [|a l IH]; simpl; intros r H.
  - inversion H. constructor.
  - destruct (f a) as [b|e] eqn:Fa; simpl in H; [|discriminate].
    destruct (map_result f l) as [r'|e]; simpl in H; [|discriminate].
    inversion H; subst. constructor; auto.
Qed.

Lemma generate_schema_shaped body :
  forall s, generate_schema body = Ok s -> schema_shaped s = true.
Proof.
  induction body as [| b | n | str | l IH | m IH] using json_nested_ind;
    intros s H; simpl in H; try (inversion H; reflexivity).
  - destruct l as [|first rest]; [discriminate|].
    destruct (generate_schema first) as [s1|e] eqn:G; simpl in H;
      [|discriminate].
    inversion H; subst. inversion IH as [|? ? Hfirst _]; subst.
    rewrite schema_shaped_entries. simpl. unfold entry_ok. simpl.
    now rewrite (Hfirst s1 G).
  - destruct (map_result _ m) as [props|e] eqn:G; simpl in H; [|discriminate].
    inversion H; subst. apply map_result_Forall2 in G.
    rewrite schema_shaped_entries. simpl. unfold entry_ok. simpl.
    rewrite andb_true_r. clear H.
    induction G as [|[k v] [k' s'] m props Hkv _ IHG]; [reflexivity|].
    inversion IH as [|? ? Hv Hm]; subst. simpl in *.
    destruct (generate_schema v) as [sv|e] eqn:Gv; simpl in Hkv;
      [|discriminate].
    inversion Hkv; subst.
    assert (Hs' : schema_shaped s' = true)
      by (apply Hv; first [reflexivity | assumption]).
    rewrite Hs'. simpl. now apply IHG.
Qed.

Lemma generate_schema_distinct body :
  forall s, json_distinct_keys body = true ->
            generate_schema body = Ok s -> distinct_keys s = true.
Proof.
  induction body as [| b | n | str | l IH | m IH] using json_nested_ind;
    intros s D H; simpl in H; try (inversion H; reflexivity).
  - destruct l as [|first rest]; [discriminate|].
    destruct (generate_schema first) as [s1|e] eqn:G; simpl in H;
      [|discriminate].
    inversion H; subst. inversion IH as [|? ? Hfirst _]; subst.
    simpl in D. apply andb_true_iff in D. destruct D as [D1 _].
    simpl. now rewrite (Hfirst s1 D1 G).
  - destruct (map_result _ m) as [props|e] eqn:G; simpl in H; [|discriminate].
    inversion H; subst. apply map_result_Forall2 in G.
    simpl in D. apply andb_true_iff in D. destruct D as [D1 D2].
    assert (Hprops : map fst props = map fst m
                     /\ forallb (fun kv => distinct_keys (snd kv)) props = true).
    { clear D1 H. induction G as [|[k v] [k' s'] m props Hkv _ IHG];
        [split; reflexivity|].
      inversion IH as [|? ? Hv Hm]; subst. simpl in *.
      apply andb_true_iff in D2. destruct D2 as [Dv Dm].
      destruct (generate_schema v) as [sv|e] eqn:Gv; simpl in Hkv;
        [|discriminate].
      inversion Hkv; subst.
      destruct (IHG Hm Dm) as [Hk Hf].
      assert (Hs' : distinct_keys s' = true)
        by (apply Hv; first [reflexivity | assumption]).
      rewrite Hs', Hk, Hf. split; reflexivity. }
    destruct Hprops as [Hk Hf].
    simpl. now rewrite Hk, D1, Hf.
Qed.

(* ------------------------------------------------------------------ *)
(** ** Which example wins a disagreement *)

(** C3, as stated, fails: the first response body gives [a] the type
    [number], the second one [string]; after the second example is
    merged the schema of [a] still says [number].  (A later body with
    another property [b] does add it, before [a].) *)
Lemma later_example_does_not_override :
  option_bind
    (final_response_schema
       (generate_path (plain_generator "") "/x" [example_a_string])
       "get" "200")
    (fun s => leaf_at s ["properties"; "a"; "type"])
  = Some (VStr "string") /\
  option_bind
    (final_response_schema
       (generate_path (plain_generator "") "/x"
          [example_a_number; example_a_string])
       "get" "200")
    (fun s => leaf_at s ["properties"; "a"; "type"])
  = Some (VStr "number") /\
  option_bind
    (final_response_schema
       (generate_path (plain_generator "") "/x"
          [example_a_number; example_b_string])
       "get" "200")
    (fun s => dict_get_value s "properties")
  = Some (VDict [("b", VDict [("type", VStr "string")]);
                 ("a", VDict [("type", VStr "number")])]).
Proof. repeat split; vm_compute; reflexivity. Qed.

(** C3, amended.  [update_dict d u] is a key-by-key deep merge: a key
    that [u] lacks keeps the entry of [d], a key whose value in [u] is
    not a dictionary carries the value of [u], and a key whose value in
    [u] is a dictionary carries the merge of that dictionary into
    [d.get(k, {})]; hence every leaf of [u], at any depth, is in the
    result.  [_generate_response_params] passes the schema inferred from
    the current example as [d] and the schema accumulated so far as [u]:
    for an earlier and a later response body, the schema stored after
    the later one is [update_dict s2 s1], with [s2] the schema inferred
    from the later body and [s1] the one from the earlier body; this
    merge returns, and every leaf of the earlier example's schema, its
    type tags included, is in the merged schema.  When two examples
    disagree on the type of a leaf, the type of the earlier one
    stays. *)
Theorem update_dict_lets_the_accumulated_schema_win :
  (forall de es r,
      distinct (map fst es) = true ->
      update_dict (VDict de) (VDict es) = Ok r ->
      exists re,
        r = VDict re /\
        (forall k, dict_get es k = None -> dict_get re k = dict_get de k) /\
        (forall k v, dict_get es k = Some v -> is_leaf v = true ->
                     dict_get re k = Some v) /\
        (forall k v, dict_get es k = Some v -> is_leaf v = false ->
                     exists merged,
                       update_dict (match dict_get de k with
                                    | Some x => x
                                    | None => VDict []
                                    end) v = Ok merged /\
                       dict_get re k = Some merged)) /\
  (forall keypath u d r x,
      distinct_keys u = true ->
      update_dict d u = Ok r ->
      leaf_at u keypath = Some x -> leaf_at r keypath = Some x) /\
  (forall earlier later : json,
      json_distinct_keys earlier = true ->
      meets_empty_array earlier = false ->
      meets_empty_array later = false ->
      exists s1 s2 r1 r2 merged,
        generate_schema earlier = Ok s1 /\
        generate_schema later = Ok s2 /\
        generate_response_params earlier (VDict []) = Ok r1 /\
        generate_response_params later r1 = Ok r2 /\
        value_getitem r2 "schema" = Ok merged /\
        update_dict s2 s1 = Ok merged /\
        forall keypath x,
          leaf_at s1 keypath = Some x -> leaf_at merged keypath = Some x).
Proof.
  split; [|split].
  - intros de es r Hd Hr. rewrite update_dict_entries in Hr.
    now apply update_entries_spec.
  - intros keypath u d r x. apply update_dict_keeps_leaves_of_u.
  - intros earlier later Hdist He Hl.
    pose proof (generate_schema_trichotomy earlier) as T1. rewrite He in T1.
    pose proof (generate_schema_trichotomy later) as T2. rewrite Hl in T2.
    destruct T1 as [s1 Hs1], T2 as [s2 Hs2].
    pose proof (generate_schema_shaped _ _ Hs1) as Sh1.
    pose proof (generate_schema_shaped _ _ Hs2) as Sh2.
    destruct (update_dict_shaped s1) as [Hmerge _].
    destruct (Hmerge Sh1 s2 Sh2) as [m [Hm _]].
    exists s1, s2, (VDict [("schema", s1); ("description", VStr "TODO")]),
      (VDict [("schema", m); ("description", VStr "TODO")]), m.
    unfold generate_response_params, merge_response_schema.
    rewrite Hs1, Hs2. simpl. rewrite Hm. simpl.
    repeat split.
    intros keypath x Hx.
    eapply update_dict_keeps_leaves_of_u; eauto.
    eapply generate_schema_distinct; eauto.
Qed.

Lemma update_dict_lets_the_accumulated_schema_win_witness :
  json_distinct_keys body_a_number = true /\
  meets_empty_array body_a_number = false /\
  meets_empty_array body_b_string = false /\
  exists s1 s2 r1 r2 merged,
    generate_schema body_a_number = Ok s1 /\
    generate_schema body_b_string = Ok s2 /\
    generate_response_params body_a_number (VDict []) = Ok r1 /\
    generate_response_params body_b_string r1 = Ok r2 /\
    value_getitem r2 "schema" = Ok merged /\
    update_dict s2 s1 = Ok merged /\
    forall keypath x,
      leaf_at s1 keypath = Some x -> leaf_at merged keypath = Some x.
Proof.
  split; [reflexivity|]. split; [reflexivity|]. split; [reflexivity|].
  destruct update_dict_lets_the_accumulated_schema_win as [_ [_ H]].
  exact (H body_a_number body_b_string eq_refl eq_refl eq_refl).
Defined.

(* ------------------------------------------------------------------ *)
(** ** Reference matching *)


Lemma map_result_of_Forall2 {A B : Type} (f : A -> result B) l r :
  Forall2 (fun a b => f a = Ok b) l r -> map_result f l = Ok r.
Proof.
  induction 1 as [|a b l r Hab _ IH]; simpl; [reflexivity|].
  now rewrite Hab, IH.
Qed.



Lemma find_none_valid {A : Type} (p : A -> bool) l :
  (forall a, In a l -> p a = false) -> find p l = None.
Proof.
  intro H. induction l as [|a l IH]; simpl; [reflexivity|].
  rewrite (H a) by now left. apply IH. intros b Hb. apply H. now right.
Qed.

Section ReferenceMatcherFacts.

Variable validate : value -> json -> pdict -> bool.
Variable self : Generator.

(** The object branch of [_match_references], for a node that has the
    type [object], a [properties] key and no [$ref] key. *)
Lemma match_references_object d body :
  dict_mem d "$ref" = false ->
  dict_get d "type" = Some (VStr "object") ->
  dict_mem d "properties" = true ->
  match_references validate self (VDict d) body
  = if is_empty_mapping body then Ok (VDict d)
    else
      let* defs := definitions self in
      match first_valid validate self defs body with
      | Some nd => Ok (reference (fst nd))
      | None =>
          let* d' :=
            dict_update_at "properties"
              (fun props =>
                 match props with
                 | VDict ps =>
                     let* ps' := map_result (match_property validate self body) ps in
                     Ok (VDict ps')
                 | _ => Raise AttributeError
                 end) d in
          Ok (VDict d')
      end.
Proof.
  intros Href Hty Hprops.
  cbn [match_references]. rewrite Href. unfold getitem at 1. rewrite Hty.
  cbn [bind value_eqb_str]. 
  change (String.eqb "object" "array") with false.
  change (String.eqb "object" "object") with true.
  cbn [andb bind]. rewrite Hprops. reflexivity.
Qed.


End ReferenceMatcherFacts.



(* ------------------------------------------------------------------ *)
(** ** Further properties: the component matcher and the tokenizer *)

(** X1. [component_matches] is transitive: with reflexivity and
    antisymmetry it orders component tuples from the more literal to the
    more parameterized. *)
Theorem component_matches_transitive :
  forall c1 c2 c3 : components,
    component_matches c1 c2 = true -> component_matches c2 c3 = true ->
    component_matches c1 c3 = true.
Proof.
  intros c1 c2 c3 H12 H23. apply component_matches_compatible in H12, H23.
  apply component_matches_compatible. eapply compatible_trans; eauto.
Qed.

Lemma component_matches_transitive_witness :
  component_matches [Some "users"; Some "me"] [Some "users"; None] = true.
Proof.
  apply (component_matches_transitive _ [Some "users"; Some "me"]);
    reflexivity.
Defined.

Lemma dot_plus_close_spec s :
  forall seen,
    Str.dot_plus_close seen s = true <->
    exists body,
      no_newline body = true /\ (seen = true \/ body <> "") /\
      (s = body ++ "}" \/ s = body ++ String "}" (String "010" ""))%string.
Proof.
  induction s as [|c s IH]; intro seen; simpl.
  - split; [discriminate|]. intros [body [_ [_ [H|H]]]];
      destruct body; discriminate.
  - split.
    + intro H. apply orb_true_iff in H. destruct H as [H|H].
      * apply andb_true_iff in H. destruct H as [H Hs].
        apply andb_true_iff in H. destruct H as [Hseen Hc].
        apply Ascii.eqb_eq in Hc. subst c. exists "".
        split; [reflexivity|]. split; [now left|].
        apply orb_true_iff in Hs.
        destruct Hs as [Hs|Hs]; apply String.eqb_eq in Hs; subst; auto.
      * apply andb_true_iff in H. destruct H as [Hc Hs].
        apply IH in Hs. destruct Hs as [body [Hb [_ Hs]]].
        exists (String c body). split; [|split].
        -- unfold no_newline in *. simpl. now rewrite Hc, Hb.
        -- right. discriminate.
        -- destruct Hs as [-> | ->]; auto.
    + intros [body [Hb [Hseen Hs]]]. apply orb_true_iff.
      destruct body as [|b body].
      * left. destruct Hseen as [-> |Hne]; [|congruence].
        destruct Hs as [Hs|Hs]; simpl in Hs; inversion Hs; subst; reflexivity.
      * right. unfold no_newline in Hb. simpl in Hb.
        apply andb_true_iff in Hb. destruct Hb as [Hb1 Hb2].
        assert (Hc : c = b) by (destruct Hs as [Hs|Hs]; now inversion Hs).
        subst c. rewrite Hb1. simpl. apply IH. exists body.
        split; [assumption|]. split; [now left|].
        destruct Hs as [Hs|Hs]; inversion Hs; auto.
Qed.

(** X2. The default [is_param] accepts exactly the non-empty strings of
    digits and the strings [{body}] with a non-empty body free of
    newlines, the latter also when one newline follows the closing
    brace (the [$] of the pattern matches before a final newline). *)
Theorem is_param_characterised :
  forall s : string,
    is_param s = true <->
    (exists body,
        body <> "" /\ no_newline body = true /\
        (s = String "{" (body ++ "}")
         \/ s = String "{" (body ++ String "}" (String "010" "")))%string)
    \/ (s <> "" /\ Str.all_chars Str.isdigit_char s = true).
Proof.
  intro s. unfold is_param. rewrite orb_true_iff.
  assert (Hd : Str.isdigit s = true <->
               s <> "" /\ Str.all_chars Str.isdigit_char s = true).
  { destruct s; simpl; split; try discriminate.
    - intros [H _]. congruence.
    - intro H. split; [discriminate|assumption].
    - intros [_ H]. assumption. }
  rewrite Hd.
  assert (Hp : Str.param_pattern_match s = true <->
               exists body,
                 body <> "" /\ no_newline body = true /\
                 (s = String "{" (body ++ "}")
                  \/ s = String "{" (body ++ String "}" (String "010" "")))%string).
  { destruct s as [|c s]; simpl.
    - split; [discriminate|]. intros [b [_ [_ [H|H]]]]; discriminate.
    - rewrite andb_true_iff, dot_plus_close_spec. split.
      + intros [Hc [body [Hb [[H|H] Hs]]]]; [discriminate|].
        apply Ascii.eqb_eq in Hc. subst c. exists body.
        split; [assumption|]. split; [assumption|].
        destruct Hs as [-> | ->]; auto.
      + intros [body [Hne [Hb Hs]]].
        assert (Hc : c = "{"%char) by (destruct Hs as [Hs|Hs]; now inversion Hs).
        subst c. split; [reflexivity|]. exists body.
        split; [assumption|]. split; [now right|].
        destruct Hs as [Hs|Hs]; inversion Hs; auto. }
  rewrite Hp. tauto.
Qed.

Lemma map_tag_Forall2 l1 l2 :
  Forall2 (fun s1 s2 => s1 = s2 \/ (is_param s1 = true /\ is_param s2 = true))
          l1 l2 ->
  map tag l1 = map tag l2.
Proof.
  induction 1 as [|s1 s2 l1 l2 H _ IH]; simpl; [reflexivity|].
  rewrite IH. f_equal. destruct H as [-> |[H1 H2]]; [reflexivity|].
  unfold tag. now rewrite H1, H2.
Qed.

(** X3. Two raw paths whose segments agree except where both segments
    are parameters (two different ids, say) have the same components, or
    fail alike: this is what files them in one naive bucket. *)
Theorem get_components_ignores_parameter_values :
  forall (self : Generator) (p1 p2 : string),
    Forall2 (fun s1 s2 => s1 = s2 \/ (is_param s1 = true /\ is_param s2 = true))
            (Str.split p1) (Str.split p2) ->
    get_components self p1 = get_components self p2.
Proof.
  intros self p1 p2 H. unfold get_components.
  change (map (fun e => if negb (is_param e) then Some e else None))
    with (map tag).
  now rewrite (map_tag_Forall2 _ _ H).
Qed.

Lemma get_components_ignores_parameter_values_witness :
  get_components (plain_generator "") "/users/1/posts/{id}"
  = get_components (plain_generator "") "/users/22/posts/7".
Proof.
  apply get_components_ignores_parameter_values.
  vm_compute.
  repeat (constructor; [first [now left | right; split; reflexivity]|]).
  constructor.
Defined.

Lemma split_app_slash a b :
  Str.split (a ++ String "/" b) = Str.split a ++ Str.split b.
Proof.
  induction a as [|c a IH]; [reflexivity|].
  cbn [String.append Str.split]. rewrite IH.
  destruct (Ascii.eqb c "/"); [reflexivity|].
  pose proof (split_nonempty a) as N.
  destruct (Str.split a) as [|seg r]; [congruence|reflexivity].
Qed.

Lemma map_tag_literals l :
  Forall (fun seg => is_param seg = false) l -> map tag l = map Some l.
Proof.
  induction 1 as [|s l H _ IH]; simpl; [reflexivity|].
  rewrite IH. unfold tag. now rewrite H.
Qed.

Lemma firstn_app_exact {A : Type} (l r : list A) :
  firstn (length l) (l ++ r) = l.
Proof. induction l; simpl; congruence. Qed.

Lemma skipn_app_exact {A : Type} (l r : list A) :
  skipn (length l) (l ++ r) = r.
Proof. induction l; simpl; congruence. Qed.

(** X4. When no segment of the base path looks like a parameter, the
    components of [base_path/rest] are those of [/rest] under the empty
    base path: stripping the base path is the same as never having had
    it. *)
Theorem get_components_strips_base_path :
  forall (self : Generator) (rest : string),
    Forall (fun seg => is_param seg = false) (Str.split (base_path self)) ->
    get_components self (base_path self ++ String "/" rest)
    = get_components (with_base_path self "") (String "/" rest).
Proof.
  intros self rest Hbase. unfold get_components.
  change (map (fun e => if negb (is_param e) then Some e else None))
    with (map tag).
  rewrite split_app_slash, map_app, (map_tag_literals _ Hbase).
  rewrite firstn_app_exact, skipn_app_exact, components_eqb_refl.
  reflexivity.
Qed.

Lemma get_components_strips_base_path_witness :
  get_components (plain_generator "/api/v2") "/api/v2/users/1"
  = get_components (with_base_path (plain_generator "/api/v2") "") "/users/1".
Proof.
  apply (get_components_strips_base_path (plain_generator "/api/v2") "users/1").
  vm_compute. repeat constructor.
Defined.

Lemma tagged_literal_ok l :
  Forall (fun seg => no_slash seg = true) l -> Forall literal_ok (map tag l).
Proof.
  induction 1; simpl; constructor; auto. now apply tag_literal_ok.
Qed.

Lemma In_firstn {A : Type} (x : A) n l : In x (firstn n l) -> In x l.
Proof.
  revert l. induction n as [|n IH]; intros [|a l]; simpl; try tauto.
  intros [H|H]; auto.
Qed.

(** X5. A base path with a segment that looks like a parameter (a
    number, a [{...}] placeholder) is never stripped: the components of
    any raw path are all its segments, less at most a leading empty
    one. *)
Theorem parameter_like_base_path_is_never_stripped :
  forall (self : Generator) (p : string) (cs : components),
    Exists (fun seg => is_param seg = true) (Str.split (base_path self)) ->
    get_components self p = Ok cs ->
    map tag (Str.split p) = cs \/ map tag (Str.split p) = Some "" :: cs.
Proof.
  intros self p cs Hex H. unfold get_components in H.
  change (map (fun e => if negb (is_param e) then Some e else None))
    with (map tag) in H.
  set (all := map tag (Str.split p)) in *.
  set (bc := map Some (Str.split (base_path self))) in *.
  assert (E : components_eqb bc (firstn (length bc) all) = false).
  { apply components_eqb_neq. intro Heq.
    apply Exists_exists in Hex. destruct Hex as [seg [Hin Hseg]].
    assert (Hin' : In (Some seg) all).
    { assert (Hb : In (Some seg) bc) by (unfold bc; now apply in_map).
      apply (In_firstn _ (length bc)).
      exact (eq_ind bc (In (Some seg)) Hb _ Heq). }
    pose proof (tagged_literal_ok _ (split_no_slash p)) as Hall.
    rewrite Forall_forall in Hall. specialize (Hall _ Hin').
    simpl in Hall. destruct Hall. congruence. }
  cbv zeta in H.
  match type of H with
  | context [if ?b then _ else _] =>
      replace b with false in H by (symmetry; exact E)
  end.
  destruct all as [|c rest]; [discriminate|].
  destruct (component_eqb c (Some "")) eqn:Ec; inversion H; subst.
  - apply component_eqb_spec in Ec. subst c. now right.
  - now left.
Qed.

Lemma parameter_like_base_path_is_never_stripped_witness :
  map tag (Str.split "/api/1/users") = Some "" :: [Some "api"; None; Some "users"].
Proof.
  destruct (parameter_like_base_path_is_never_stripped
              (plain_generator "/api/1") "/api/1/users"
              [Some "api"; None; Some "users"]) as [H|H].
  - vm_compute. apply Exists_cons_tl, Exists_cons_tl, Exists_cons_hd.
    reflexivity.
  - reflexivity.
  - discriminate H.
  - exact H.
Defined.

(* ------------------------------------------------------------------ *)
(** ** Further properties: path merging *)

Lemma templated_path_collisions cs1 cs2 :
  Forall literal_ok cs1 -> Forall literal_ok cs2 ->
  build_paramaterized_path cs1 = build_paramaterized_path cs2 ->
  cs1 = cs2 \/ (cs1 = [] /\ cs2 = [Some ""]) \/ (cs1 = [Some ""] /\ cs2 = []).
Proof.
  intros H1 H2 Hb.
  pose proof (tokens_of_templated_path cs1 H1) as T1.
  pose proof (tokens_of_templated_path cs2 H2) as T2.
  rewrite Hb, T2 in T1. inversion T1 as [E].
  destruct cs1 as [|a1 t1], cs2 as [|a2 t2]; auto;
    try (right; right; symmetry in E; auto).
Qed.

(** X6. Two component tuples that [_get_components] can return build
    the same templated path only when they are equal, or when one is the
    empty tuple and the other the single empty literal (both build
    [/]). *)
Theorem build_paramaterized_path_collisions :
  forall (self : Generator) (p1 p2 : string) (cs1 cs2 : components),
    get_components self p1 = Ok cs1 ->
    get_components self p2 = Ok cs2 ->
    build_paramaterized_path cs1 = build_paramaterized_path cs2 ->
    cs1 = cs2 \/ (cs1 = [] /\ cs2 = [Some ""]) \/ (cs1 = [Some ""] /\ cs2 = []).
Proof.
  intros self p1 p2 cs1 cs2 H1 H2.
  apply templated_path_collisions; eapply get_components_literals; eauto.
Qed.

Lemma build_paramaterized_path_collisions_witness :
  [Some "users"; None] = [Some "users"; None]
  \/ ([Some "users"; None] = [] /\ [Some "users"; None] = [Some ""])
  \/ ([Some "users"; None] = [Some ""] /\ [Some "users"; None] = [] :> components).
Proof.
  apply (build_paramaterized_path_collisions
           (plain_generator "") "/users/1" "/users/2"); reflexivity.
Defined.

Lemma bucket_pop_keys b c es b' :
  bucket_pop b c = Ok (es, b') -> incl (keys b') (keys b).
Proof.
  revert es b'. induction b as [|[c' es'] b IH]; simpl; intros es b' H;
    [discriminate|].
  destruct (components_eqb c c').
  - inversion H; subst. apply incl_tl, incl_refl.
  - destruct (bucket_pop b c) as [[es0 b0]|e] eqn:P; simpl in H;
      [|discriminate].
    inversion H; subst. simpl. intros x [Hx|Hx]; [now left|].
    right. eapply IH; eauto.
Qed.

Lemma bucket_extend_keys b c es :
  incl (keys (bucket_extend b c es)) (c :: keys b).
Proof.
  induction b as [|[c' es'] b IH]; simpl.
  - apply incl_refl.
  - destruct (components_eqb c c'); simpl.
    + apply incl_tl, incl_refl.
    + intros x [Hx|Hx]; [right; now left|].
      destruct (IH x Hx) as [H|H]; [now left|right; now right].
Qed.

Lemma refine_step_keys b c1 b' :
  refine_step b c1 = Ok b' -> incl (keys b') (keys b).
Proof.
  unfold refine_step. destruct (find_match c1 b) as [m|] eqn:F.
  - destruct (match_truthy (Some m)).
    + destruct (bucket_pop b c1) as [[es b1]|e] eqn:P; simpl; [|discriminate].
      intro H. inversion H; subst. intros x Hx.
      destruct (bucket_extend_keys _ _ _ x Hx) as [<- |Hx'].
      * now destruct (find_match_Some _ _ _ F).
      * eapply bucket_pop_keys; eauto.
    + intro H. inversion H; subst. apply incl_refl.
  - simpl. intro H. inversion H; subst. apply incl_refl.
Qed.

Lemma refine_loop_keys ks :
  forall b out, refine_loop ks b = Ok out -> incl (keys out) (keys b).
Proof.
  induction ks as [|c1 ks IH]; intros b out H; simpl in H.
  - inversion H; subst. apply incl_refl.
  - destruct (refine_step b c1) as [b'|e] eqn:S; simpl in H; [|discriminate].
    eapply incl_tran; [eapply IH; eauto|eapply refine_step_keys; eauto].
Qed.

Lemma find_match_unmatched c1 b :
  (forall c2, In c2 (keys b) -> c2 <> c1 -> component_matches c1 c2 = false) ->
  find_match c1 b = None.
Proof.
  induction b as [|[c' es'] b IH]; simpl; intro H; [reflexivity|].
  destruct (components_eqb c1 c') eqn:E.
  - apply IH. intros c2 Hc2. apply H. now right.
  - rewrite (H c') by (auto; apply components_eqb_neq in E; congruence).
    apply IH. intros c2 Hc2. apply H. now right.
Qed.

Lemma refine_loop_fixed b ks :
  (forall c1 c2, In c1 ks -> In c2 (keys b) -> c2 <> c1 ->
                 component_matches c1 c2 = false) ->
  refine_loop ks b = Ok b.
Proof.
  induction ks as [|c1 ks IH]; intro H; simpl; [reflexivity|].
  unfold refine_step. rewrite find_match_unmatched.
  - simpl. apply IH. intros a c2 Ha. apply H. now right.
  - intros c2. apply H. now left.
Qed.

(** X7. The refinement pass is idempotent: run on the buckets it
    returned, it returns them as they are. *)
Theorem refinement_is_idempotent :
  forall b0 out : buckets,
    NoDup (keys b0) -> refine b0 = Ok out -> refine out = Ok out.
Proof.
  intros b0 out Hnd Hout.
  destruct (refine_loop_spec b0 (keys b0) b0)
    as [out' [Hout' [Hk _]]]; auto.
  - intros k Hk Hnot. contradiction.
  - intros k Hk. exists k. split; [assumption|]. split.
    + apply compatible_refl.
    + apply incl_refl.
  - change (refine_loop (keys b0) b0) with (refine b0) in Hout'.
    assert (out' = out) by congruence. subst out'.
    pose proof (refine_loop_keys _ _ _ Hout') as Hsub.
    apply refine_loop_fixed. intros c1 c2 H1 H2 N.
    apply (Hk c1 (Hsub _ H1)); auto.
Qed.

Lemma refinement_is_idempotent_witness :
  refine [(users_slot, [example_users_1; example_users_error])]
  = Ok [(users_slot, [example_users_1; example_users_error])].
Proof.
  apply (refinement_is_idempotent users_buckets).
  - exact users_buckets_distinct.
  - reflexivity.
Defined.

Lemma dict_set_fresh {V : Type} (d : list (string * V)) k v :
  ~ In k (map fst d) -> dict_set d k v = d ++ [(k, v)].
Proof.
  induction d as [|[k' v'] d IH]; simpl; intro H; [reflexivity|].
  destruct (String.eqb k k') eqn:E.
  - apply String.eqb_eq in E. subst. tauto.
  - f_equal. apply IH. tauto.
Qed.

Lemma templated_distinct b :
  forall acc,
    NoDup (map fst acc ++ map build_paramaterized_path (keys b)) ->
    templated b acc
    = acc ++ map (fun ce => (build_paramaterized_path (fst ce), snd ce)) b.
Proof.
  induction b as [|[c es] b IH]; intros acc H; simpl.
  - now rewrite app_nil_r.
  - simpl in H. pose proof (NoDup_remove_2 _ _ _ H) as Hfresh.
    rewrite dict_set_fresh by (intro Hin; apply Hfresh, in_or_app; now left).
    rewrite IH.
    + now rewrite <- app_assoc.
    + rewrite map_app, <- app_assoc. exact H.
Qed.

Lemma NoDup_map_on {A B : Type} (f : A -> B) (l : list A) :
  NoDup l ->
  (forall x y, In x l -> In y l -> f x = f y -> x = y) ->
  NoDup (map f l).
Proof.
  induction 1 as [|a l Ha Hl IH]; intro Hinj; simpl; constructor.
  - intro Hin. apply in_map_iff in Hin. destruct Hin as [x [Hx Hxl]].
    assert (x = a) by (apply Hinj; simpl; auto). subst. contradiction.
  - apply IH. intros x y Hx Hy. apply Hinj; simpl; auto.
Qed.

Lemma naive_buckets_keys self pte :
  forall acc out,
    naive_buckets self pte acc = Ok out ->
    forall c, In c (keys out) ->
              In c (keys acc)
              \/ exists p, In p (map fst pte) /\ get_components self p = Ok c.
Proof.
  induction pte as [|[p exs] pte IH]; intros acc out H c Hc; simpl in H.
  - inversion H; subst. now left.
  - destruct (get_components self p) as [cs|e] eqn:G; simpl in H;
      [|discriminate].
    destruct (IH _ _ H c Hc) as [Hin|[p' [Hp' Hg]]].
    + destruct (bucket_extend_keys _ _ _ c Hin) as [<- |Hin'].
      * right. exists p. split; [now left|assumption].
      * now left.
    + right. exists p'. split; [now right|assumption].
Qed.

(** X8. [_merge_examples] keeps every stored example exactly once
    unless the raw paths give both the empty tuple and the single empty
    literal: apart from that collision on the templated path [/], the
    example lists of the result are, together, a permutation of the
    stored ones. *)
Theorem merge_examples_keeps_every_example :
  forall (self : Generator) (path_to_examples out : list (string * list Example)),
    merge_examples self path_to_examples = Ok out ->
    ~ (exists p1 p2,
          In p1 (map fst path_to_examples) /\
          In p2 (map fst path_to_examples) /\
          get_components self p1 = Ok [] /\
          get_components self p2 = Ok [Some ""]) ->
    Permutation (concat (map snd path_to_examples)) (concat (map snd out)).
Proof.
  intros self pte out Hout Hdeg.
  unfold merge_examples in Hout.
  destruct (naive_buckets self pte []) as [naive|e] eqn:N; simpl in Hout;
    [|discriminate].
  destruct (refine naive) as [refined|e] eqn:R; simpl in Hout; [|discriminate].
  inversion Hout as [Ht]. clear Hout.
  destruct (naive_buckets_spec self pte [] naive (NoDup_nil _) N) as [Hn Hp].
  simpl in Hp.
  destruct (refine_loop_spec naive (keys naive) naive)
    as [o [Ho [_ [_ [Hpo Hnd]]]]]; auto.
  { intros k Hk Hnot. contradiction. }
  { intros k Hk. exists k. split; [assumption|]. split.
    - apply compatible_refl.
    - apply incl_refl. }
  change (refine_loop (keys naive) naive) with (refine naive) in Ho.
  assert (o = refined) by congruence. subst o.
  assert (Hprov : forall c, In c (keys refined) ->
                            exists p, In p (map fst pte)
                                      /\ get_components self p = Ok c).
  { intros c Hc. apply (refine_loop_keys _ _ _ R) in Hc.
    destruct (naive_buckets_keys _ _ _ _ N c Hc) as [[]|Hq]. exact Hq. }
  rewrite templated_distinct.
  - simpl. rewrite map_map. simpl.
    rewrite Hp. exact Hpo.
  - simpl. apply NoDup_map_on; [assumption|].
    intros x y Hx Hy Hxy.
    destruct (Hprov x Hx) as [px [Hpx Gx]].
    destruct (Hprov y Hy) as [py [Hpy Gy]].
    destruct (templated_path_collisions x y
                (get_components_literals _ _ _ Gx)
                (get_components_literals _ _ _ Gy) Hxy)
      as [E|[[E1 E2]|[E1 E2]]]; [assumption| |]; subst; exfalso;
      apply Hdeg; eauto 8.
Qed.

Lemma merge_examples_keeps_every_example_witness :
  Permutation [example_users_1; example_users_error]
              [example_users_1; example_users_error].
Proof.
  apply (merge_examples_keeps_every_example (plain_generator "")
           [("/users/1", [example_users_1]);
            ("/users/test_an_error", [example_users_error])]
           [("/users/{param1}", [example_users_1; example_users_error])]).
  - reflexivity.
  - intros [p1 [p2 [H1 [_ [G _]]]]].
    destruct H1 as [<- |[<- |[]]]; discriminate G.
Defined.

(* ------------------------------------------------------------------ *)
(** ** Further properties: request parameters *)

Lemma dict_get_app {V : Type} (d1 d2 : list (string * V)) k :
  dict_get (d1 ++ d2) k
  = match dict_get d1 k with Some v => Some v | None => dict_get d2 k end.
Proof.
  induction d1 as [|[k' v'] d1 IH]; simpl; [reflexivity|].
  destruct (String.eqb k k'); auto.
Qed.

Lemma existsb_eqb_In k ks : existsb (String.eqb k) ks = true <-> In k ks.
Proof.
  rewrite existsb_exists. split.
  - intros [x [Hx E]]. apply String.eqb_eq in E. now subst.
  - intro H. exists k. split; [assumption|apply String.eqb_refl].
Qed.

Lemma keys_dict_set {V : Type} (d : list (string * V)) k v :
  map fst (dict_set d k v)
  = if existsb (String.eqb k) (map fst d) then map fst d
    else map fst d ++ [k].
Proof.
  induction d as [|[k' v'] d IH]; simpl; [reflexivity|].
  destruct (String.eqb k k') eqn:E; simpl; [reflexivity|].
  rewrite IH. destruct (existsb (String.eqb k) (map fst d)); reflexivity.
Qed.

Lemma distinct_app_fresh ks k :
  distinct ks = true -> existsb (String.eqb k) ks = false ->
  distinct (ks ++ [k]) = true.
Proof.
  induction ks as [|a ks IH]; simpl; intros Hd Hk; [reflexivity|].
  apply andb_true_iff in Hd. destruct Hd as [Ha Hd].
  apply orb_false_iff in Hk. destruct Hk as [Hka Hk].
  rewrite (IH Hd Hk), andb_true_r.
  apply negb_true_iff in Ha. apply negb_true_iff.
  rewrite existsb_app, Ha. simpl. rewrite orb_false_r.
  rewrite String.eqb_sym. exact Hka.
Qed.

Lemma distinct_dict_set {V : Type} (d : list (string * V)) k v :
  distinct (map fst d) = true -> distinct (map fst (dict_set d k v)) = true.
Proof.
  intro H. rewrite keys_dict_set.
  destruct (existsb (String.eqb k) (map fst d)) eqn:E; [assumption|].
  now apply distinct_app_fresh.
Qed.

Lemma fold_dict_set_spec {V : Type} (items : list (string * V)) :
  forall acc,
    distinct (map fst acc) = true ->
    let d := fold_left (fun a kv => dict_set a (fst kv) (snd kv)) items acc in
    distinct (map fst d) = true /\
    forall k, dict_get d k
              = match dict_get (List.rev items) k with
                | Some v => Some v
                | None => dict_get acc k
                end.
Proof.
  induction items as [|[k0 v0] items IH]; intros acc Hacc; simpl.
  - auto.
  - destruct (IH (dict_set acc k0 v0) (distinct_dict_set _ _ _ Hacc))
      as [Hd Hg].
    split; [exact Hd|]. intro k. rewrite Hg, dict_get_app. simpl.
    destruct (dict_get (List.rev items) k); [reflexivity|].
    destruct (String.eqb k k0) eqn:E.
    + apply String.eqb_eq in E. subst. apply dict_get_set_same.
    + apply dict_get_set_other. now apply String.eqb_neq.
Qed.

(** X9. A query key given several times yields one entry, with the
    value of its last occurrence: the typed query dictionary has
    pairwise distinct keys and maps each key to the last value given
    for it. *)
Theorem query_dictionary_keeps_last_value :
  forall (query_items : list (string * json)),
    distinct (map fst (get_request_query_params_with_data_type query_items))
    = true /\
    forall k,
      dict_get (get_request_query_params_with_data_type query_items) k
      = dict_get (List.rev query_items) k.
Proof.
  intro items. unfold get_request_query_params_with_data_type.
  destruct (fold_dict_set_spec items [] eq_refl) as [Hd Hg].
  split; [exact Hd|]. intro k. rewrite Hg.
  destruct (dict_get (List.rev items) k); reflexivity.
Qed.

(* The merge of two parameter lists. *)

Lemma param_in_dict_set p loc v :
  param_in (dict_set p "required" v) loc = param_in p loc.
Proof.
  unfold param_in, getitem.
  now rewrite dict_get_set_other by discriminate.
Qed.

Lemma param_name_dict_set p v :
  param_name (dict_set p "required" v) = param_name p.
Proof.
  unfold param_name, getitem.
  now rewrite dict_get_set_other by discriminate.
Qed.

Lemma dict_mem_remove {V : Type} (d : list (string * V)) k n :
  dict_mem (dict_remove d k) n = true -> dict_mem d n = true.
Proof.
  unfold dict_mem. induction d as [|[k' v'] d IH]; simpl; [auto|].
  destruct (String.eqb k k') eqn:E; simpl.
  - destruct (String.eqb n k'); auto.
  - destruct (String.eqb n k'); auto.
Qed.

Lemma merge_loop_spec params1 :
  forall q2 r q2',
    merge_loop params1 q2 = Ok (r, q2') ->
    (forall n, dict_mem q2' n = true -> dict_mem q2 n = true) /\
    Forall2
      (fun p p' =>
         p' = dict_set p "required" (VBool false)
         \/ (p' = p /\
             (param_in p "query" = Ok false
              \/ exists n, param_name p = Ok n /\ dict_mem q2 n = true)))
      params1 r.
Proof.
  induction params1 as [|p ps IH]; intros q2 r q2' H; simpl in H.
  - inversion H; subst. split; [auto|constructor].
  - destruct (param_in p "query") as [q|e] eqn:Q; simpl in H; [|discriminate].
    destruct q.
    + destruct (param_name p) as [n|e] eqn:Nm; simpl in H; [|discriminate].
      destruct (dict_mem q2 n) eqn:M.
      * destruct (merge_loop ps (dict_remove q2 n)) as [[r0 q0]|e] eqn:L;
          simpl in H; [|discriminate].
        inversion H; subst. destruct (IH _ _ _ L) as [Hsub HF].
        split.
        -- intros m Hm. eapply dict_mem_remove. eauto.
        -- constructor.
           ++ right. split; [reflexivity|]. right. eauto.
           ++ eapply Forall2_impl; [|exact HF].
              intros a b [Hb|[Hb [Hq|[m [Hn Hm]]]]]; auto.
              right. split; [assumption|]. right. exists m. split; auto.
              eapply dict_mem_remove; eauto.
      * destruct (merge_loop ps q2) as [[r0 q0]|e] eqn:L;
          simpl in H; [|discriminate].
        inversion H; subst. destruct (IH _ _ _ L) as [Hsub HF].
        split; [assumption|]. constructor; [now left|assumption].
    + destruct (merge_loop ps q2) as [[r0 q0]|e] eqn:L;
        simpl in H; [|discriminate].
      inversion H; subst. destruct (IH _ _ _ L) as [Hsub HF].
      split; [assumption|]. constructor; [|assumption].
      right. split; [reflexivity|]. now left.
Qed.

Lemma query_params_by_name_spec params2 :
  forall acc q2,
    query_params_by_name params2 acc = Ok q2 ->
    forall n, dict_mem q2 n = true ->
              dict_mem acc n = true
              \/ exists p2, In p2 params2 /\ param_in p2 "query" = Ok true
                            /\ param_name p2 = Ok n.
Proof.
  induction params2 as [|p ps IH]; intros acc q2 H n Hn; simpl in H.
  - inversion H; subst. now left.
  - destruct (param_in p "query") as [q|e] eqn:Q; simpl in H; [|discriminate].
    destruct q.
    + destruct (param_name p) as [m|e] eqn:Nm; simpl in H; [|discriminate].
      destruct (IH _ _ H n Hn) as [Hacc|[p2 [Hin [Hq Hp]]]].
      * unfold dict_mem in Hacc.
        destruct (String.eqb n m) eqn:E.
        -- apply String.eqb_eq in E. subst m. right. exists p.
           split; [now left|auto].
        -- rewrite dict_get_set_other in Hacc by now apply String.eqb_neq.
           now left.
      * right. exists p2. split; [now right|auto].
    + destruct (IH _ _ H n Hn) as [Hacc|[p2 [Hin [Hq Hp]]]]; [now left|].
      right. exists p2. split; [now right|auto].
Qed.

Lemma required_only_if_in_both :
  forall (params1 params2 r : list pdict) (p : pdict),
    merge_query_params params1 params2 = Ok r ->
    In p r ->
    param_in p "query" = Ok true ->
    dict_get p "required" = Some (VBool true) ->
    In p params1 /\
    exists n p2,
      param_name p = Ok n /\ In p2 params2 /\
      param_in p2 "query" = Ok true /\ param_name p2 = Ok n.
Proof.
  intros params1 params2 r p H Hin Hq Hreq. unfold merge_query_params in H.
  destruct (query_params_by_name params2 []) as [q2|e] eqn:Q2; simpl in H;
    [|discriminate].
  destruct (merge_loop params1 q2) as [[r1 q2']|e] eqn:L; simpl in H;
    [|discriminate].
  inversion H; subst. clear H.
  destruct (merge_loop_spec _ _ _ _ L) as [_ HF].
  apply in_app_or in Hin. destruct Hin as [Hin|Hin].
  - assert (Hp : exists p0, In p0 params1 /\
                   (p = dict_set p0 "required" (VBool false)
                    \/ (p = p0 /\
                        (param_in p0 "query" = Ok false
                         \/ exists n, param_name p0 = Ok n
                                      /\ dict_mem q2 n = true)))).
    { clear -HF Hin. induction HF as [|a b l l' Hab _ IH]; [contradiction|].
      destruct Hin as [<- |Hin].
      - exists a. split; [now left|assumption].
      - destruct (IH Hin) as [p0 [H0 H1]]. exists p0. split; [now right|auto]. }
    destruct Hp as [p0 [Hp0 [Hset|[-> [Hnq|[n [Hn Hm]]]]]]].
    + subst p. rewrite dict_get_set_same in Hreq. discriminate.
    + congruence.
    + split; [assumption|].
      destruct (query_params_by_name_spec _ _ _ Q2 n Hm)
        as [Habs|[p2 [Hin2 [Hq2 Hn2]]]]; [discriminate|].
      exists n, p2. auto.
  - apply in_map_iff in Hin. destruct Hin as [np [Hp _]]. subst p.
    rewrite dict_get_set_same in Hreq. discriminate.
Qed.


Lemma filter_none {A : Type} (p : A -> bool) l :
  Forall (fun a => p a = false) l -> filter p l = [].
Proof. induction 1 as [|a l H _ IH]; simpl; [|rewrite H]; auto. Qed.

Lemma filter_all {A : Type} (p : A -> bool) l :
  Forall (fun a => p a = true) l -> filter p l = l.
Proof. induction 1 as [|a l H _ IH]; simpl; [|rewrite H, IH]; auto. Qed.

Lemma distinct_app_middle l k r :
  distinct (l ++ k :: r) = true -> ~ In k l.
Proof.
  induction l as [|a l IH]; simpl; [tauto|]. intro H.
  apply andb_true_iff in H. destruct H as [Ha Hd].
  intros [E|Hin]; [|now apply IH].
  subst a. apply negb_true_iff in Ha.
  rewrite existsb_app in Ha. apply orb_false_iff in Ha.
  destruct Ha as [_ Ha]. simpl in Ha. now rewrite String.eqb_refl in Ha.
Qed.

Lemma well_formed_param_in p :
  well_formed p = true -> param_in p "query" = Ok (located_in "query" p).
Proof.
  unfold well_formed, param_in, located_in, getitem.
  destruct (dict_get p "in"); [reflexivity|discriminate].
Qed.

Lemma well_formed_param_name p :
  well_formed p = true -> located_in "query" p = true ->
  param_name p = Ok (name_of p).
Proof.
  unfold well_formed, param_name, located_in, name_of, getitem.
  destruct (dict_get p "in") as [l|]; [|discriminate].
  intros H Hq. rewrite Hq in H.
  destruct (dict_get p "name") as [[s|b|e]|]; try discriminate. reflexivity.
Qed.

Lemma query_params_by_name_exact params2 :
  forall acc,
    forallb well_formed params2 = true ->
    distinct (map fst acc ++ query_names params2) = true ->
    query_params_by_name params2 acc
    = Ok (acc ++ map (fun p => (name_of p, p))
                     (filter (located_in "query") params2)).
Proof.
  induction params2 as [|p ps IH]; intros acc Hwf Hd; simpl.
  - now rewrite app_nil_r.
  - simpl in Hwf. apply andb_true_iff in Hwf. destruct Hwf as [Hp Hps].
    rewrite (well_formed_param_in p Hp). cbn [bind].
    unfold query_names in Hd. simpl in Hd.
    destruct (located_in "query" p) eqn:Q.
    + rewrite (well_formed_param_name p Hp Q). cbn [bind].
      simpl in Hd.
      rewrite dict_set_fresh by (eapply distinct_app_middle; exact Hd).
      rewrite IH; [|assumption|].
      * simpl. now rewrite <- app_assoc.
      * rewrite map_app, <- app_assoc. exact Hd.
    + now apply IH.
Qed.

Lemma dict_remove_filter {V : Type} (d : list (string * V)) n :
  distinct (map fst d) = true ->
  dict_remove d n = filter (fun e => negb (String.eqb (fst e) n)) d.
Proof.
  induction d as [|[k v] d IH]; simpl; intro H; [reflexivity|].
  apply andb_true_iff in H. destruct H as [Hk Hd].
  rewrite (String.eqb_sym k n).
  destruct (String.eqb n k) eqn:E; simpl.
  - apply String.eqb_eq in E. subst k. apply negb_true_iff in Hk.
    symmetry. apply filter_all.
    apply Forall_forall. intros [k' v'] Hin. simpl.
    apply negb_true_iff. destruct (String.eqb k' n) eqn:E'; [|reflexivity].
    apply String.eqb_eq in E'. subst k'.
    assert (existsb (String.eqb n) (map fst d) = true).
    { apply existsb_eqb_In. apply in_map_iff. exists (n, v'). auto. }
    congruence.
  - now rewrite IH.
Qed.

Lemma distinct_filter_keys {V : Type} (p : string * V -> bool) d :
  distinct (map fst d) = true -> distinct (map fst (filter p d)) = true.
Proof.
  induction d as [|[k v] d IH]; simpl; intro H; [reflexivity|].
  apply andb_true_iff in H. destruct H as [Hk Hd].
  destruct (p (k, v)); simpl; [|now apply IH].
  rewrite (IH Hd), andb_true_r. apply negb_true_iff in Hk.
  apply negb_true_iff.
  destruct (existsb (String.eqb k) (map fst (filter p d))) eqn:E;
    [|reflexivity].
  apply existsb_eqb_In in E. apply in_map_iff in E.
  destruct E as [[k' v'] [Hk' Hin]]. simpl in Hk'. subst k'.
  apply filter_In in Hin. destruct Hin as [Hin _].
  assert (existsb (String.eqb k) (map fst d) = true).
  { apply existsb_eqb_In. apply in_map_iff. exists (k, v'). auto. }
  congruence.
Qed.

Lemma dict_mem_filter_other {V : Type} (d : list (string * V)) n k :
  k <> n ->
  dict_mem (filter (fun e => negb (String.eqb (fst e) n)) d) k = dict_mem d k.
Proof.
  intro N. unfold dict_mem. induction d as [|[k' v'] d IH]; simpl;
    [reflexivity|].
  destruct (String.eqb k' n) eqn:E; simpl.
  - apply String.eqb_eq in E. subst k'. apply String.eqb_neq in N.
    now rewrite N.
  - destruct (String.eqb k k'); [reflexivity|exact IH].
Qed.

Lemma filter_ext_on {A : Type} (p q : A -> bool) l :
  (forall a, In a l -> p a = q a) -> filter p l = filter q l.
Proof.
  induction l as [|a l IH]; simpl; intro H; [reflexivity|].
  rewrite (H a) by now left. rewrite IH; [reflexivity|].
  intros x Hx. apply H. now right.
Qed.

Lemma filter_twice {A : Type} (p q : A -> bool) l :
  filter p (filter q l) = filter (fun a => q a && p a) l.
Proof.
  induction l as [|a l IH]; simpl; [reflexivity|].
  destruct (q a); simpl; [destruct (p a)|]; now rewrite IH.
Qed.

Lemma In_dict_get_any {V : Type} (d : list (string * V)) k v :
  In (k, v) d -> dict_get d k <> None.
Proof.
  induction d as [|[k' v'] d IH]; simpl; [tauto|].
  intros [H|H].
  - inversion H; subst. now rewrite String.eqb_refl.
  - destruct (String.eqb k k'); [discriminate|now apply IH].
Qed.

Lemma merge_loop_exact params1 :
  forall q2,
    forallb well_formed params1 = true ->
    distinct (query_names params1) = true ->
    distinct (map fst q2) = true ->
    merge_loop params1 q2
    = Ok (map (fun p => if located_in "query" p
                           && negb (dict_mem q2 (name_of p))
                        then optional p else p) params1,
          filter (fun e => negb (existsb (String.eqb (fst e))
                                         (query_names params1))) q2).
Proof.
  induction params1 as [|p ps IH]; intros q2 Hwf Hn Hq2.
  - simpl. f_equal. f_equal. symmetry. apply filter_all.
    apply Forall_forall. reflexivity.
  - simpl in Hwf. apply andb_true_iff in Hwf. destruct Hwf as [Hp Hps].
    cbn [merge_loop]. rewrite (well_formed_param_in p Hp). cbn [bind].
    unfold query_names in Hn |- *. cbn [filter map].
    destruct (located_in "query" p) eqn:Q; cbn [andb].
    + rewrite (well_formed_param_name p Hp Q). cbn [bind].
      cbn [filter map] in Hn. rewrite Q in Hn. cbn [map distinct] in Hn.
      apply andb_true_iff in Hn. destruct Hn as [Hfresh Hn].
      apply negb_true_iff in Hfresh.
      destruct (dict_mem q2 (name_of p)) eqn:M; cbn [negb].
      * rewrite (dict_remove_filter q2 (name_of p) Hq2).
        rewrite (IH _ Hps Hn (distinct_filter_keys _ q2 Hq2)).
        cbn [bind fst snd]. f_equal. f_equal.
        -- f_equal. apply map_ext_in. intros p' Hin.
           destruct (located_in "query" p') eqn:Q'; [|reflexivity].
           cbn [andb]. rewrite dict_mem_filter_other; [reflexivity|].
           intro E. assert (In (name_of p') (map name_of
                                   (filter (located_in "query") ps))).
           { apply in_map. apply filter_In. auto. }
           apply existsb_eqb_In in H. rewrite E in H. congruence.
        -- rewrite filter_twice. apply filter_ext_on. intros e _.
           cbn [existsb]. symmetry. apply negb_orb.
      * rewrite (IH _ Hps Hn Hq2). cbn [bind fst snd]. f_equal. f_equal.
        apply filter_ext_on. intros [k v] Hin.
        unfold query_names. cbn [existsb fst map orb].
        destruct (String.eqb k (name_of p)) eqn:E; [|reflexivity].
        apply String.eqb_eq in E. subst k. exfalso.
        unfold dict_mem in M.
        pose proof (In_dict_get_any q2 (name_of p) v Hin) as Hsome.
        destruct (dict_get q2 (name_of p)); [discriminate|congruence].
    + cbn [filter map] in Hn. rewrite Q in Hn.
      rewrite (IH _ Hps Hn Hq2). cbn [bind fst snd]. reflexivity.
Qed.

Lemma dict_mem_named (l : list pdict) n :
  dict_mem (map (fun p => (name_of p, p)) l) n
  = existsb (String.eqb n) (map name_of l).
Proof.
  unfold dict_mem. induction l as [|p l IH]; simpl; [reflexivity|].
  destruct (String.eqb n (name_of p)); [reflexivity|exact IH].
Qed.

Lemma existsb_eqb_flip k ks :
  existsb (String.eqb k) ks = existsb (fun x => String.eqb x k) ks.
Proof.
  induction ks as [|a ks IH]; simpl; [reflexivity|].
  now rewrite IH, String.eqb_sym.
Qed.

Lemma remaining_existing_params names params2 :
  map (fun np : string * pdict => optional (snd np))
      (filter (fun e => negb (existsb (String.eqb (fst e)) names))
              (map (fun p => (name_of p, p))
                   (filter (located_in "query") params2)))
  = map optional
        (filter (fun p2 => located_in "query" p2 && negb (mentions names p2))
                params2).
Proof.
  unfold mentions. induction params2 as [|p ps IH]; simpl; [reflexivity|].
  destruct (located_in "query" p); simpl; [|exact IH].
  destruct (existsb (String.eqb (name_of p)) names); simpl; now rewrite IH.
Qed.

(** X10. [_merge_query_params] computed exactly.  A query parameter
    that is still required after the merge is one of the incoming
    parameters and has a query parameter of the same name in the
    existing list.  For well-formed parameters with distinct query names
    in each list, the merge returns the incoming parameters in their
    order, each query parameter that the existing list does not name
    made optional and every other one as it is, followed by the
    existing query parameters that the incoming list does not name, made
    optional; the existing path and body parameters are dropped. *)
Theorem merged_query_parameter_required_only_if_in_both :
  (forall (params1 params2 r : list pdict) (p : pdict),
      merge_query_params params1 params2 = Ok r ->
      In p r ->
      param_in p "query" = Ok true ->
      dict_get p "required" = Some (VBool true) ->
      In p params1 /\
      exists n p2,
        param_name p = Ok n /\ In p2 params2 /\
        param_in p2 "query" = Ok true /\ param_name p2 = Ok n) /\
  (forall params1 params2 : list pdict,
      forallb well_formed params1 = true ->
      forallb well_formed params2 = true ->
      distinct (query_names params1) = true ->
      distinct (query_names params2) = true ->
      merge_query_params params1 params2
      = Ok (map (fun p => if located_in "query" p
                             && negb (mentions (query_names params2) p)
                          then optional p else p) params1
            ++ map optional
                 (filter (fun p2 => located_in "query" p2
                                    && negb (mentions (query_names params1) p2))
                         params2))).
Proof.
  split; [exact required_only_if_in_both|].
  intros params1 params2 Hwf1 Hwf2 Hn1 Hn2. unfold merge_query_params.
  rewrite (query_params_by_name_exact params2 [] Hwf2 Hn2).
  rewrite app_nil_l. cbn [bind].
  rewrite (merge_loop_exact params1 _ Hwf1 Hn1).
  - cbn [bind fst snd]. f_equal. f_equal.
    + apply map_ext. intro p. cbv beta. rewrite dict_mem_named. reflexivity.
    + apply remaining_existing_params.
  - rewrite map_map. exact Hn2.
Qed.

Lemma merged_query_parameter_required_only_if_in_both_witness :
  merge_query_params
    [query_param_of "a" "number" true; query_param_of "b" "string" true;
     path_param 1]
    [query_param_of "c" "number" true; query_param_of "a" "number" false;
     path_param 1; path_param 2]
  = Ok [query_param_of "a" "number" true; query_param_of "b" "string" false;
        path_param 1; query_param_of "c" "number" false].
Proof.
  exact (proj2 merged_query_parameter_required_only_if_in_both
           [query_param_of "a" "number" true; query_param_of "b" "string" true;
            path_param 1]
           [query_param_of "c" "number" true; query_param_of "a" "number" false;
            path_param 1; path_param 2]
           eq_refl eq_refl eq_refl eq_refl).
Defined.

(* ------------------------------------------------------------------ *)
(** ** Further properties: the parameters of one request *)

Lemma path_params_spec cs :
  forall i acc,
    path_params i cs acc = acc ++ map path_param (seq (S i) (slots cs)).
Proof.
  induction cs as [|[s|] cs IH]; intros i acc.
  - simpl. now rewrite app_nil_r.
  - simpl. apply IH.
  - cbn [path_params]. rewrite IH. unfold slots. cbn [filter is_not_None negb].
    cbn [length seq map]. now rewrite <- app_assoc.
Qed.

Lemma placeholders_from cs :
  forall i,
    map snd (filter (fun ce => negb (is_not_None (fst ce)))
                    (combine cs (render i cs)))
    = map (fun n => "{param" ++ Str.of_nat n ++ "}")%string
          (seq (S i) (slots cs)).
Proof.
  induction cs as [|[s|] cs IH]; intro i.
  - reflexivity.
  - cbn [render combine filter fst is_not_None negb]. apply IH.
  - cbn [render combine filter fst is_not_None negb map snd].
    rewrite IH. reflexivity.
Qed.

Lemma generate_type_params_keys v t :
  generate_type_params v = Ok t ->
  exists entries,
    t = VDict entries /\ dict_get entries "name" = None
    /\ dict_get entries "in" = None.
Proof.
  destruct v as [| b | n | s | l | m]; simpl; intro H;
    try (inversion H; eexists; repeat split; reflexivity).
  - destruct l as [|first rest]; [discriminate|].
    destruct (generate_type_params first); simpl in H; [|discriminate].
    inversion H. eexists; repeat split; reflexivity.
  - destruct (map_result _ m); simpl in H; [|discriminate].
    inversion H. eexists; repeat split; reflexivity.
Qed.

Lemma dict_get_rev_None {V : Type} (d : list (string * V)) k :
  dict_get d k = None -> dict_get (List.rev d) k = None.
Proof.
  induction d as [|[k' v'] d IH]; simpl; [auto|].
  destruct (String.eqb k k') eqn:E; [discriminate|].
  intro H. rewrite dict_get_app, (IH H). simpl. now rewrite E.
Qed.

Lemma dict_update_keeps base entries k :
  distinct (map fst base) = true ->
  dict_get entries k = None ->
  dict_get (dict_update base entries) k = dict_get base k.
Proof.
  intros Hd Hk. unfold dict_update.
  destruct (fold_dict_set_spec entries base Hd) as [_ Hg].
  rewrite Hg. now rewrite (dict_get_rev_None _ _ Hk).
Qed.

Lemma query_params_spec self items :
  forall acc ps,
    query_params self items acc = Ok ps ->
    exists news,
      ps = acc ++ news /\
      Forall (fun p => located_in "query" p = true) news /\
      map (fun p => dict_get p "name") news
      = map (fun k => Some (VStr k))
            (filter (fun k => negb (blacklisted self k)) (map fst items)).
Proof.
  induction items as [|[k v] items IH]; intros acc ps H; simpl in H.
  - inversion H; subst. exists []. rewrite app_nil_r. repeat split.
    constructor.
  - destruct (generate_type_params v) as [t|e] eqn:G; simpl in H;
      [|discriminate].
    destruct (generate_type_params_keys _ _ G) as [entries [-> [Hn Hi]]].
    simpl in H. fold (blacklisted self k) in H. simpl.
    destruct (blacklisted self k); simpl in H |- *.
    + now apply IH.
    + destruct (IH _ _ H) as [news [-> [Hq Hnames]]].
      eexists (_ :: news). rewrite <- app_assoc. split; [reflexivity|].
      split.
      * constructor; [|assumption]. unfold located_in.
        now rewrite dict_update_keeps.
      * simpl. rewrite Hnames. f_equal. now rewrite dict_update_keeps.
Qed.

Lemma filter_located_path_params loc l :
  filter (located_in loc) (map path_param l)
  = if String.eqb "path" loc then map path_param l else [].
Proof.
  induction l as [|n l IH]; cbn [map filter].
  - now destruct (String.eqb "path" loc).
  - rewrite IH.
    change (located_in loc (path_param n)) with (String.eqb "path" loc).
    destruct (String.eqb "path" loc); reflexivity.
Qed.

(** The list [_generate_request_params] builds for a first example: the
    query parameters, then the path parameters, then the body
    parameter. *)
Lemma generate_request_params_fresh self p request ps :
  generate_request_params self p request [] = Ok ps ->
  exists qs cs body,
    ps = qs ++ map path_param (seq 1 (slots cs)) ++ body /\
    get_components self p = Ok cs /\
    Forall (fun q => located_in "query" q = true) qs /\
    map (fun q => dict_get q "name") qs
    = map (fun k => Some (VStr k))
          (filter (fun k => negb (blacklisted self k))
                  (map fst (get_request_query_params_with_data_type
                              (query request)))) /\
    Forall (fun b => located_in "body" b = true) body /\
    (truthy (req_data request) = false -> body = []).
Proof.
  unfold generate_request_params. intro H.
  destruct (query_params self _ []) as [qs|e] eqn:Q; simpl in H;
    [|discriminate].
  destruct (get_components self p) as [cs|e] eqn:G; simpl in H;
    [|discriminate].
  destruct (query_params_spec _ _ _ _ Q) as [news [-> [Hq Hn]]].
  simpl in *. rewrite path_params_spec in H.
  destruct (truthy (req_data request)).
  - destruct (generate_schema (req_data request)) as [s|e]; simpl in H;
      [|discriminate].
    inversion H; subst.
    exists news, cs,
      [[("name", VStr "body_data"); ("in", VStr "body"); ("schema", s)]].
    split; [symmetry; apply app_assoc|]. split; [reflexivity|].
    split; [assumption|]. split; [assumption|].
    split; [repeat constructor|discriminate].
  - simpl in H. inversion H; subst. exists news, cs, [].
    split; [now rewrite app_nil_r|]. split; [reflexivity|].
    split; [assumption|]. split; [assumption|].
    split; [constructor|reflexivity].
Qed.

Lemma located_elsewhere loc loc' l :
  String.eqb loc loc' = false ->
  Forall (fun q => located_in loc q = true) l ->
  Forall (fun q => located_in loc' q = false) l.
Proof.
  intros N H. eapply Forall_impl; [|exact H]. intros q Hq.
  unfold located_in in *. destruct (dict_get q "in") as [[s|b|e]|];
    simpl in *; try discriminate.
  apply String.eqb_eq in Hq. subst s. exact N.
Qed.

(** X11. The path parameters generated for a path are [param1] ...
    [paramN], one for each of the [N] slots among its components, each
    required and of type string; they are, in order, the placeholders
    of the templated path built from those components, without the
    braces. *)
Theorem path_parameters_follow_placeholders :
  forall (self : Generator) (p : string) (cs : components)
         (request : Request) (ps : list pdict),
    get_components self p = Ok cs ->
    generate_request_params self p request [] = Ok ps ->
    filter (located_in "path") ps = map path_param (seq 1 (slots cs)) /\
    placeholders cs
    = map (fun n => "{param" ++ Str.of_nat n ++ "}")%string
          (seq 1 (slots cs)).
Proof.
  intros self p cs request ps Hcs H.
  split; [|apply placeholders_from].
  destruct (generate_request_params_fresh _ _ _ _ H)
    as [qs [cs' [body [-> [Hcs' [Hq [_ [Hb _]]]]]]]].
  assert (cs' = cs) by congruence. subst cs'.
  rewrite !filter_app, filter_located_path_params. simpl.
  rewrite (filter_none _ qs), (filter_none _ body).
  - now rewrite app_nil_r.
  - now apply (located_elsewhere "body").
  - now apply (located_elsewhere "query").
Qed.

Lemma path_parameters_follow_placeholders_witness :
  placeholders [Some "users"; None; Some "posts"; None]
  = ["{param1}"; "{param2}"].
Proof.
  apply (path_parameters_follow_placeholders
           (plain_generator "") "/users/1/posts/2"
           [Some "users"; None; Some "posts"; None]
           {| method := "GET"; query := []; req_data := JNull |}
           [path_param 1; path_param 2]); reflexivity.
Defined.

Lemma filter_ext_all {A : Type} (p q : A -> bool) l :
  (forall a, p a = q a) -> filter p l = filter q l.
Proof.
  intro H. induction l as [|a l IH]; simpl; [reflexivity|].
  now rewrite H, IH.
Qed.

(** The keys of the typed query dictionary are the keys of the query in
    the order of their first occurrence. *)
Lemma keys_of_fold_dict_set {V : Type} (items : list (string * V)) :
  forall acc,
    map fst (fold_left (fun a kv => dict_set a (fst kv) (snd kv)) items acc)
    = map fst acc
      ++ filter (fun k => negb (existsb (String.eqb k) (map fst acc)))
                (first_occurrences (map fst items)).
Proof.
  induction items as [|[k v] items IH]; intro acc; simpl.
  - now rewrite app_nil_r.
  - rewrite IH, keys_dict_set. rewrite filter_twice.
    destruct (existsb (String.eqb k) (map fst acc)) eqn:E; simpl.
    + f_equal. apply filter_ext_all. intro a.
      destruct (String.eqb a k) eqn:Ea; simpl; [|reflexivity].
      apply String.eqb_eq in Ea. subst a. now rewrite E.
    + rewrite <- app_assoc. simpl. f_equal. f_equal.
      apply filter_ext_all. intro a. rewrite existsb_app. simpl.
      rewrite orb_false_r, negb_orb, andb_comm. reflexivity.
Qed.

Lemma query_dictionary_keys (items : list (string * json)) :
  map fst (get_request_query_params_with_data_type items)
  = first_occurrences (map fst items).
Proof.
  unfold get_request_query_params_with_data_type.
  rewrite keys_of_fold_dict_set. simpl.
  induction (first_occurrences (map fst items)) as [|a l IH]; simpl;
    [reflexivity|now rewrite IH].
Qed.

(** X12. The query parameters generated for a first example are
    exactly the keys of its query that are not blacklisted, each once,
    in the order of their first occurrence in the query. *)
Theorem query_parameters_are_the_keys_not_blacklisted :
  forall (self : Generator) (p : string) (request : Request)
         (ps : list pdict),
    generate_request_params self p request [] = Ok ps ->
    names_in "query" ps
    = map (fun k => Some (VStr k))
          (filter (fun k => negb (blacklisted self k))
                  (first_occurrences (map fst (query request)))).
Proof.
  intros self p request ps H.
  destruct (generate_request_params_fresh _ _ _ _ H)
    as [qs [cs [body [-> [_ [Hq [Hn [Hb _]]]]]]]].
  unfold names_in. rewrite !filter_app, filter_located_path_params. simpl.
  rewrite (filter_all _ qs Hq), (filter_none _ body).
  - rewrite app_nil_r, Hn. now rewrite query_dictionary_keys.
  - now apply (located_elsewhere "body").
Qed.

Lemma query_parameters_are_the_keys_not_blacklisted_witness :
  names_in "query"
    [[("name", VStr "page"); ("in", VStr "query"); ("required", VBool true);
      ("type", VStr "number")];
     [("name", VStr "sort"); ("in", VStr "query"); ("required", VBool true);
      ("type", VStr "string")];
     path_param 1]
  = [Some (VStr "page"); Some (VStr "sort")].
Proof.
  apply (query_parameters_are_the_keys_not_blacklisted
           {| base_path := ""; existing_schema := []; default := None;
              query_key_blacklist := ["token"] |}
           "/items/7"
           {| method := "GET";
              query := [("page", JNum 2%Z); ("token", JStr "abc");
                        ("sort", JStr "name"); ("page", JNum 3%Z)];
              req_data := JNull |}).
  reflexivity.
Defined.

(* ------------------------------------------------------------------ *)
(** ** Further properties: inference of query types, merging *)

Lemma generate_type_params_trichotomy (body : json) :
  if meets_empty_array body
  then generate_type_params body = Raise EmptyExampleArrayError
  else exists s, generate_type_params body = Ok s.
Proof.
  induction body as [| b | n | s | l IH | m IH] using json_nested_ind;
    simpl; try (eexists; reflexivity).
  - destruct l as [|first rest]; [reflexivity|].
    inversion IH as [|? ? Hfirst _]; subst.
    destruct (meets_empty_array first).
    + now rewrite Hfirst.
    + destruct Hfirst as [s Hs]. rewrite Hs. simpl. eexists; reflexivity.
  - set (f := fun kv : string * json =>
                let* s := generate_type_params (snd kv) in Ok (fst kv, s)).
    destruct (existsb (fun kv => meets_empty_array (snd kv)) m) eqn:E.
    + rewrite (map_result_raise f EmptyExampleArrayError m); [reflexivity| |].
      * eapply Forall_impl; [|exact IH]. intros [k v] H. simpl in H. unfold f.
        simpl. destruct (meets_empty_array v).
        -- right. now rewrite H.
        -- left. destruct H as [s Hs]. rewrite Hs. simpl. eexists; reflexivity.
      * apply existsb_exists in E. destruct E as [[k v] [Hin Hv]].
        apply Exists_exists. exists (k, v). split; [assumption|].
        rewrite Forall_forall in IH. specialize (IH _ Hin). simpl in *.
        rewrite Hv in IH. unfold f. simpl. now rewrite IH.
    + destruct (map_result_ok f m) as [r [Hr _]].
      * rewrite Forall_forall in IH |- *. intros [k v] Hin.
        specialize (IH _ Hin). simpl in IH.
        assert (Hv : meets_empty_array v = false).
        { destruct (meets_empty_array v) eqn:Ev; [|reflexivity].
          assert (existsb (fun kv => meets_empty_array (snd kv)) m = true)
            by (apply existsb_exists; exists (k, v); auto).
          congruence. }
        rewrite Hv in IH. destruct IH as [s Hs]. unfold f. simpl.
        rewrite Hs. simpl. eexists; reflexivity.
      * rewrite Hr. simpl. eexists; reflexivity.
Qed.

(** X13. Typing a query value fails exactly when inferring a body
    schema from the same value would: [_generate_type_params] raises
    nothing but [EmptyExampleArrayError], and raises it exactly when
    [_generate_schema] does. *)
Theorem generate_type_params_fails_like_generate_schema :
  forall body : json,
    (generate_type_params body = Raise EmptyExampleArrayError <->
     generate_schema body = Raise EmptyExampleArrayError) /\
    ((exists t, generate_type_params body = Ok t) <->
     (exists s, generate_schema body = Ok s)) /\
    (forall e, generate_type_params body = Raise e ->
               e = EmptyExampleArrayError).
Proof.
  intro body.
  pose proof (generate_type_params_trichotomy body) as T.
  pose proof (generate_schema_trichotomy body) as S.
  destruct (meets_empty_array body).
  - rewrite T, S. repeat split; auto; try (intros [x Hx]; discriminate).
    intros e He. congruence.
  - destruct T as [t Ht], S as [s Hs]. rewrite Ht, Hs.
    repeat split; try discriminate; eauto.
Qed.

(* Merging a dictionary into the empty one, and into itself. *)

Lemma In_dict_get {V : Type} (d : list (string * V)) k v :
  distinct (map fst d) = true -> In (k, v) d -> dict_get d k = Some v.
Proof.
  induction d as [|[k' v'] d IH]; simpl; [tauto|].
  intros Hd [H|H].
  - inversion H; subst. now rewrite String.eqb_refl.
  - apply andb_true_iff in Hd. destruct Hd as [Hk Hd].
    destruct (String.eqb k k') eqn:E; [|now apply IH].
    apply String.eqb_eq in E. subst k'. apply negb_true_iff in Hk.
    assert (existsb (String.eqb k) (map fst d) = true).
    { apply existsb_eqb_In. apply in_map_iff. exists (k, v). auto. }
    congruence.
Qed.

Lemma dict_set_same_value {V : Type} (d : list (string * V)) k v :
  dict_get d k = Some v -> dict_set d k v = d.
Proof.
  induction d as [|[k' v'] d IH]; simpl; [discriminate|].
  destruct (String.eqb k k') eqn:E.
  - intro H. inversion H. reflexivity.
  - intro H. now rewrite IH.
Qed.

Lemma update_entries_self d es :
  distinct (map fst d) = true ->
  Forall (fun kv => distinct_keys (snd kv) = true ->
                    is_leaf (snd kv) = false ->
                    update_dict (snd kv) (snd kv) = Ok (snd kv)) es ->
  forallb (fun kv => distinct_keys (snd kv)) es = true ->
  incl es d ->
  update_entries es (VDict d) = Ok (VDict d).
Proof.
  intros Hd HF. induction HF as [|[k v] es Hv _ IH]; intros Hdk Hincl;
    [reflexivity|].
  simpl in Hdk. apply andb_true_iff in Hdk. destruct Hdk as [Hkv Hdk].
  assert (Hget : dict_get d k = Some v)
    by (apply In_dict_get; [assumption|apply Hincl; now left]).
  assert (Hrest : update_entries es (VDict d) = Ok (VDict d)).
  { apply IH; [assumption|]. intros x Hx. apply Hincl. now right. }
  simpl in Hv. destruct v as [s|b|e];
    cbn [update_entries get_or_empty setitem bind].
  - now rewrite dict_set_same_value.
  - now rewrite dict_set_same_value.
  - rewrite Hget, (Hv Hkv eq_refl). cbn [bind].
    now rewrite dict_set_same_value.
Qed.

Lemma update_dict_self v :
  distinct_keys v = true -> is_leaf v = false -> update_dict v v = Ok v.
Proof.
  induction v as [s|b|es IH] using value_nested_ind; intros Hd Hl;
    try discriminate.
  rewrite update_dict_entries. simpl in Hd.
  apply andb_true_iff in Hd. destruct Hd as [H1 H2].
  apply update_entries_self; auto. apply incl_refl.
Qed.

Lemma update_entries_fresh es :
  Forall (fun kv => distinct_keys (snd kv) = true ->
                    is_leaf (snd kv) = false ->
                    update_dict (VDict []) (snd kv) = Ok (snd kv)) es ->
  forallb (fun kv => distinct_keys (snd kv)) es = true ->
  forall acc,
    distinct (map fst acc ++ map fst es) = true ->
    update_entries es (VDict acc) = Ok (VDict (acc ++ es)).
Proof.
  induction 1 as [|[k v] es Hv _ IH]; intros Hdk acc Hd.
  - simpl. now rewrite app_nil_r.
  - simpl in Hdk. apply andb_true_iff in Hdk. destruct Hdk as [Hkv Hdk].
    assert (Hfresh : ~ In k (map fst acc)).
    { clear -Hd. induction acc as [|[a x] acc IHa]; simpl in *; [tauto|].
      apply andb_true_iff in Hd. destruct Hd as [Ha Hd].
      intros [H|H]; [|now apply IHa].
      subst a. apply negb_true_iff in Ha.
      rewrite existsb_app in Ha. apply orb_false_iff in Ha.
      destruct Ha as [_ Ha]. simpl in Ha. now rewrite String.eqb_refl in Ha. }
    assert (Hnone : dict_get acc k = None).
    { apply dict_get_not_key.
      destruct (existsb (String.eqb k) (map fst acc)) eqn:E; [|reflexivity].
      apply existsb_eqb_In in E. contradiction. }
    assert (Hnext : update_entries es (VDict (acc ++ [(k, v)]))
                    = Ok (VDict (acc ++ (k, v) :: es))).
    { rewrite (IH Hdk (acc ++ [(k, v)])).
      - now rewrite <- app_assoc.
      - rewrite map_app, <- app_assoc. exact Hd. }
    simpl in Hv. destruct v as [s|b|e];
      cbn [update_entries get_or_empty setitem bind].
    + now rewrite dict_set_fresh.
    + now rewrite dict_set_fresh.
    + rewrite Hnone, (Hv Hkv eq_refl). cbn [bind].
      now rewrite dict_set_fresh.
Qed.

Lemma update_dict_into_empty v :
  distinct_keys v = true -> is_leaf v = false ->
  update_dict (VDict []) v = Ok v.
Proof.
  induction v as [s|b|es IH] using value_nested_ind; intros Hd Hl;
    try discriminate.
  rewrite update_dict_entries. simpl in Hd.
  apply andb_true_iff in Hd. destruct Hd as [H1 H2].
  apply (update_entries_fresh es IH H2 []). exact H1.
Qed.

(** X14. For dictionaries with pairwise distinct keys at every level,
    [update_dict] into the empty dictionary returns a copy of its
    second argument, and [update_dict] of a dictionary into itself
    returns it unchanged. *)
Theorem update_dict_identities :
  forall es : list (string * value),
    distinct_keys (VDict es) = true ->
    update_dict (VDict []) (VDict es) = Ok (VDict es) /\
    update_dict (VDict es) (VDict es) = Ok (VDict es).
Proof.
  intros es H. split.
  - now apply update_dict_into_empty.
  - now apply update_dict_self.
Qed.

Lemma update_dict_identities_witness :
  update_dict (VDict object_node) (VDict object_node) = Ok (VDict object_node).
Proof.
  apply (update_dict_identities object_node). reflexivity.
Defined.

(** X15. The same response body provided twice for a status code
    leaves the response entry as the first example made it. *)
Theorem same_response_twice_changes_nothing :
  forall (body : json) (r1 : value),
    json_distinct_keys body = true ->
    generate_response_params body (VDict []) = Ok r1 ->
    generate_response_params body r1 = Ok r1.
Proof.
  intros body r1 Hd H. unfold generate_response_params in *.
  destruct (generate_schema body) as [s|e] eqn:G; simpl in *; [|discriminate].
  inversion H; subst. simpl. unfold merge_response_schema.
  rewrite update_dict_self; [reflexivity| |].
  - eapply generate_schema_distinct; eauto.
  - pose proof (generate_schema_shaped _ _ G) as Sh.
    destruct s; [discriminate|discriminate|reflexivity].
Qed.

Lemma same_response_twice_changes_nothing_witness :
  exists r1,
    generate_response_params body_a_number (VDict []) = Ok r1 /\
    generate_response_params body_a_number r1 = Ok r1.
Proof.
  eexists. split; [reflexivity|].
  apply same_response_twice_changes_nothing; reflexivity.
Defined.

(* ------------------------------------------------------------------ *)
(** ** Further properties: reference matching *)

Lemma dict_update_at_unchanged {V : Type} k (f : V -> result V) d d' :
  dict_update_at k f d = Ok d' ->
  (forall v v', In (k, v) d -> f v = Ok v' -> v' = v) ->
  d' = d.
Proof.
  revert d'. induction d as [|[k' v] d IH]; simpl; intros d' H Hf.
  - now inversion H.
  - destruct (String.eqb k k') eqn:E.
    + apply String.eqb_eq in E. subst k'.
      destruct (f v) as [v'|e] eqn:F; simpl in H; [|discriminate].
      inversion H; subst. f_equal. f_equal. apply (Hf v v'); auto.
    + destruct (dict_update_at k f d) as [r|e] eqn:U; simpl in H;
        [|discriminate].
      inversion H; subst. f_equal.
      apply IH; auto; intros x x' Hx; apply Hf; now right.
Qed.

Lemma dict_update_at_keys {V : Type} k (f : V -> result V) d d' :
  dict_update_at k f d = Ok d' -> map fst d' = map fst d.
Proof.
  revert d'. induction d as [|[k' v] d IH]; simpl; intros d' H.
  - now inversion H.
  - destruct (String.eqb k k').
    + destruct (f v); simpl in H; [|discriminate]. now inversion H.
    + destruct (dict_update_at k f d) as [r|e]; simpl in H; [|discriminate].
      inversion H; subst. simpl. f_equal. now apply IH.
Qed.

Lemma map_result_unchanged {A : Type} (f : A -> result A) l l' :
  map_result f l = Ok l' ->
  Forall (fun a => forall a', f a = Ok a' -> a' = a) l ->
  l' = l.
Proof.
  revert l'. induction l as [|a l IH]; simpl; intros l' H HF.
  - now inversion H.
  - inversion HF as [|? ? Ha Hl]; subst.
    destruct (f a) as [b|e] eqn:F; simpl in H; [|discriminate].
    destruct (map_result f l) as [r|e] eqn:M; simpl in H; [|discriminate].
    inversion H; subst. f_equal; auto.
Qed.

Section NoDefinitionValidates.

Variable validate : value -> json -> pdict -> bool.
Variable self : Generator.

Hypothesis none_validates :
  forall defs nd body,
    definitions self = Ok defs -> In nd defs ->
    validate (snd nd) body (existing_schema self) = false.

Lemma match_property_unchanged body kv :
  (forall b r, match_references validate self (snd kv) b = Ok r ->
               r = snd kv) ->
  forall kv', match_property validate self body kv = Ok kv' -> kv' = kv.
Proof.
  intros Hfix kv' H. unfold match_property in H.
  destruct (py_in (fst kv) body) as [present|e]; simpl in H; [|discriminate].
  destruct present; [|now inversion H].
  destruct (py_index body (fst kv)) as [sub|e]; simpl in H; [|discriminate].
  destruct (match_references validate self (snd kv) sub) as [s|e] eqn:M;
    simpl in H; [|discriminate].
  inversion H; subst. rewrite (Hfix _ _ M). now destruct kv.
Qed.

Lemma match_references_unchanged schema :
  (forall body r, match_references validate self schema body = Ok r ->
                  r = schema) /\
  (forall ps, schema = VDict ps ->
              Forall (fun kv =>
                        forall body r,
                          match_references validate self (snd kv) body = Ok r ->
                          r = snd kv) ps).
Proof.
  induction schema as [s|b|d IH] using value_nested_ind.
  - split; [|discriminate]. intros body r H. simpl in H.
    destruct (Str.contains "$ref" s); [now inversion H|discriminate].
  - split; discriminate.
  - assert (Hsub : Forall (fun kv =>
                             forall body r,
                               match_references validate self (snd kv) body
                               = Ok r -> r = snd kv) d).
    { eapply Forall_impl; [|exact IH]. intros kv [H _]. exact H. }
    split; [|intros ps E; inversion E; subst; exact Hsub].
    intros body r H.
    rewrite Forall_forall in Hsub, IH.
    cbn [match_references] in H.
    destruct (dict_mem d "$ref"); [now inversion H|].
    destruct (getitem d "type") as [ty|e]; cbn [bind] in H; [|discriminate].
    destruct (value_eqb_str ty "array" && dict_mem d "items").
    + destruct (py_len body) as [n|e]; cbn [bind] in H; [|discriminate].
      destruct (0 <? n).
      * destruct (dict_update_at "items" _ d) as [d'|e] eqn:U;
          cbn [bind] in H; [|discriminate].
        inversion H; subst. f_equal.
        apply (dict_update_at_unchanged _ _ _ _ U).
        intros v v' Hin Hf.
        destruct (py_first body) as [first|e]; cbn [bind] in Hf;
          [|discriminate].
        exact (Hsub _ Hin _ _ Hf).
      * destruct (value_eqb_str ty "object" && dict_mem d "properties");
          [|now inversion H].
        destruct (is_empty_mapping body); [now inversion H|].
        destruct (definitions self) as [defs|e] eqn:D; cbn [bind] in H;
          [|discriminate].
        destruct (first_valid validate self defs body) as [nd|] eqn:F.
        -- unfold first_valid in F. apply find_some in F.
           destruct F as [Hin Hv].
           rewrite (none_validates defs nd body) in Hv
             by first [exact D | reflexivity | exact Hin].
           discriminate.
        -- destruct (dict_update_at "properties" _ d) as [d'|e] eqn:U;
             cbn [bind] in H; [|discriminate].
           inversion H; subst. f_equal.
           apply (dict_update_at_unchanged _ _ _ _ U).
           intros v v' Hin Hf. destruct v as [s|b|ps]; try discriminate.
           destruct (map_result _ ps) as [ps'|e] eqn:M; cbn [bind] in Hf;
             [|discriminate].
           inversion Hf; subst. f_equal.
           apply (map_result_unchanged _ _ _ M).
           destruct (IH _ Hin) as [_ Hps]. specialize (Hps ps eq_refl).
           eapply Forall_impl; [|exact Hps].
           intros kv Hkv kv' Hkv'.
           exact (match_property_unchanged body kv Hkv kv' Hkv').
    + cbn [bind] in H.
      destruct (value_eqb_str ty "object" && dict_mem d "properties");
        [|now inversion H].
      destruct (is_empty_mapping body); [now inversion H|].
      destruct (definitions self) as [defs|e] eqn:D; cbn [bind] in H;
        [|discriminate].
      destruct (first_valid validate self defs body) as [nd|] eqn:F.
      * unfold first_valid in F. apply find_some in F.
        destruct F as [Hin Hv].
        rewrite (none_validates defs nd body) in Hv
             by first [exact D | reflexivity | exact Hin].
           discriminate.
      * destruct (dict_update_at "properties" _ d) as [d'|e] eqn:U;
          cbn [bind] in H; [|discriminate].
        inversion H; subst. f_equal.
        apply (dict_update_at_unchanged _ _ _ _ U).
        intros v v' Hin Hf. destruct v as [s|b|ps]; try discriminate.
        destruct (map_result _ ps) as [ps'|e] eqn:M; cbn [bind] in Hf;
          [|discriminate].
        inversion Hf; subst. f_equal.
        apply (map_result_unchanged _ _ _ M).
        destruct (IH _ Hin) as [_ Hps]. specialize (Hps ps eq_refl).
        eapply Forall_impl; [|exact Hps].
        intros kv Hkv kv' Hkv'.
        exact (match_property_unchanged body kv Hkv kv' Hkv').
Qed.

End NoDefinitionValidates.

Lemma match_references_without_valid_definition_aux
      (validate : value -> json -> pdict -> bool) (self : Generator) :
  (forall defs nd b,
      definitions self = Ok defs -> In nd defs ->
      validate (snd nd) b (existing_schema self) = false) ->
  forall schema body r,
    match_references validate self schema body = Ok r -> r = schema.
Proof.
  intros Hnone schema body r H.
  destruct (match_references_unchanged validate self Hnone schema) as [Hfix _].
  exact (Hfix body r H).
Qed.

(** X16. When no definition of the existing schema validates (in
    particular when there is none), [_match_references] never rewrites:
    whatever the schema and the example value, a result it returns is
    the schema it was given. *)
Theorem match_references_without_valid_definition :
  forall (validate : value -> json -> pdict -> bool) (self : Generator)
         (schema : value) (body : json) (r : value),
    (forall defs nd b,
        definitions self = Ok defs -> In nd defs ->
        validate (snd nd) b (existing_schema self) = false) ->
    match_references validate self schema body = Ok r ->
    r = schema.
Proof.
  intros validate self schema body r Hnone H.
  destruct (match_references_unchanged validate self Hnone schema) as [Hfix _].
  exact (Hfix body r H).
Qed.

Lemma match_references_without_valid_definition_witness :
  VDict object_node = VDict object_node.
Proof.
  apply (match_references_without_valid_definition
           never_valid (plain_generator "") (VDict object_node)
           (JObj [("a", JNum 1%Z)])).
  - reflexivity.
  - reflexivity.
Defined.

Lemma Forall2_same {A : Type} (R : A -> A -> Prop) l :
  Forall (fun a => R a a) l -> Forall2 R l l.
Proof. induction 1; constructor; auto. Qed.

Lemma Forall2_Forall_right {A B : Type} (R : A -> B -> Prop) (Q : B -> Prop)
      l r :
  Forall2 R l r -> (forall a b, In a l -> R a b -> Q b) -> Forall Q r.
Proof.
  induction 1 as [|a b l r Hab _ IH]; intro H; constructor.
  - apply (H a b); simpl; auto.
  - apply IH. intros x y Hx. apply H. now right.
Qed.

(** X17. When no definition validates, matching the schema inferred
    from a value (with distinct keys in each of its objects) against
    that same value returns, and returns the schema unchanged. *)
Theorem match_references_on_inferred_schema :
  forall (validate : value -> json -> pdict -> bool) (self : Generator)
         (defs : pdict) (body : json) (s : value),
    definitions self = Ok defs ->
    (forall nd b, In nd defs ->
                  validate (snd nd) b (existing_schema self) = false) ->
    json_distinct_keys body = true ->
    generate_schema body = Ok s ->
    match_references validate self s body = Ok s.
Proof.
  intros validate self defs body s Hdefs Hnone. revert s.
  induction body as [| b | n | str | l IH | m IH] using json_nested_ind;
    intros s Hd H; simpl in H; try (inversion H; reflexivity).
  - destruct l as [|first rest]; [discriminate|].
    destruct (generate_schema first) as [s1|e] eqn:G; simpl in H;
      [|discriminate].
    inversion H; subst. inversion IH as [|? ? Hfirst _]; subst.
    simpl in Hd. apply andb_true_iff in Hd. destruct Hd as [Hd1 _].
    assert (M : match_references validate self s1 first = Ok s1)
      by (apply Hfirst; first [assumption | reflexivity]).
    cbn [match_references dict_mem dict_get getitem bind value_eqb_str
         py_len py_first dict_update_at length].
    change ("$ref" =? "type")%string with false.
    change ("$ref" =? "items")%string with false.
    change ("type" =? "type")%string with true.
    change ("array" =? "array")%string with true.
    change ("items" =? "type")%string with false.
    change ("items" =? "items")%string with true.
    cbn [andb bind Nat.ltb Nat.leb]. rewrite M. reflexivity.
  - destruct (map_result _ m) as [props|e] eqn:G; simpl in H; [|discriminate].
    inversion H; subst. clear H.
    simpl in Hd. apply andb_true_iff in Hd. destruct Hd as [Hdk Hdv].
    rewrite match_references_object; try reflexivity.
    destruct (is_empty_mapping (JObj m)); [reflexivity|].
    rewrite Hdefs. cbn [bind]. unfold first_valid.
    rewrite find_none_valid by (intros nd Hin; now apply Hnone).
    apply map_result_Forall2 in G.
    assert (Hprops : map_result (match_property validate self (JObj m)) props
                     = Ok props).
    { apply map_result_of_Forall2, Forall2_same.
      apply (Forall2_Forall_right _ _ _ _ G).
      intros [k v] [k' sk] Hin Hkv. simpl in Hkv.
      destruct (generate_schema v) as [sv|e] eqn:Gv; simpl in Hkv;
        [|discriminate].
      inversion Hkv; subst.
      assert (Hget : dict_get m k' = Some v) by now apply In_dict_get.
      assert (Hvd : json_distinct_keys v = true).
      { rewrite forallb_forall in Hdv. apply (Hdv (k', v) Hin). }
      rewrite Forall_forall in IH. specialize (IH (k', v) Hin sk Hvd).
      cbn [snd] in IH.
      unfold match_property, py_in, py_index, dict_mem, getitem.
      cbn [fst snd]. rewrite Hget. cbn [bind].
      rewrite IH by first [assumption | reflexivity]. reflexivity. }
    cbn [dict_update_at].
    change ("properties" =? "type")%string with false.
    change ("properties" =? "additionalProperties")%string with false.
    change ("properties" =? "properties")%string with true.
    cbv iota. rewrite Hprops. reflexivity.
Qed.

Lemma match_references_on_inferred_schema_witness :
  exists s,
    generate_schema body_a_number = Ok s /\
    match_references never_valid (plain_generator "") s body_a_number = Ok s.
Proof.
  eexists. split; [reflexivity|].
  apply (match_references_on_inferred_schema
           never_valid (plain_generator "") []);
    first [reflexivity | intros nd b []].
Defined.

Lemma dict_update_at_other {V : Type} k (f : V -> result V) d d' k' :
  dict_update_at k f d = Ok d' -> k' <> k -> dict_get d' k' = dict_get d k'.
Proof.
  revert d'. induction d as [|[k0 v] d IH]; simpl; intros d' H N.
  - now inversion H.
  - destruct (String.eqb k k0) eqn:E.
    + destruct (f v); simpl in H; [|discriminate]. inversion H; subst.
      apply String.eqb_eq in E. subst k0. simpl.
      apply String.eqb_neq in N. now rewrite N.
    + destruct (dict_update_at k f d) as [r|e]; simpl in H; [|discriminate].
      inversion H; subst. simpl. destruct (String.eqb k' k0); auto.
Qed.

(** X18. Whatever [_match_references] returns for a node is either the
    node with the same keys and the same type, or a reference to a
    definition of the existing schema that validates the example value
    of that node, which is then not the empty mapping. *)
Theorem match_references_node_outcome :
  forall (validate : value -> json -> pdict -> bool) (self : Generator)
         (d : pdict) (body : json) (r : value),
    match_references validate self (VDict d) body = Ok r ->
    (exists d',
        r = VDict d' /\ map fst d' = map fst d /\
        dict_get d' "type" = dict_get d "type") \/
    (exists defs name def,
        definitions self = Ok defs /\ In (name, def) defs /\
        validate def body (existing_schema self) = true /\
        is_empty_mapping body = false /\
        r = VDict [("$ref", VStr ("#/definitions/" ++ name))]).
Proof.
  intros validate self d body r H.
  cbn [match_references] in H.
  destruct (dict_mem d "$ref"); [inversion H; left; eauto|].
  destruct (getitem d "type") as [ty|e]; cbn [bind] in H; [|discriminate].
  assert (Hobj :
      (if value_eqb_str ty "object" && dict_mem d "properties"
       then
         if is_empty_mapping body then Ok (VDict d)
         else
           let* defs := definitions self in
           match first_valid validate self defs body with
           | Some nd => Ok (reference (fst nd))
           | None =>
               let* d' :=
                 dict_update_at "properties"
                   (fun props =>
                      match props with
                      | VDict ps =>
                          let* ps' :=
                            map_result (match_property validate self body) ps in
                          Ok (VDict ps')
                      | _ => Raise AttributeError
                      end) d in
               Ok (VDict d')
           end
       else Ok (VDict d)) = Ok r ->
      (exists d',
          r = VDict d' /\ map fst d' = map fst d /\
          dict_get d' "type" = dict_get d "type") \/
      (exists defs name def,
          definitions self = Ok defs /\ In (name, def) defs /\
          validate def body (existing_schema self) = true /\
          is_empty_mapping body = false /\
          r = VDict [("$ref", VStr ("#/definitions/" ++ name))])).
  { clear H. intro H.
    destruct (value_eqb_str ty "object" && dict_mem d "properties");
      [|inversion H; left; eauto].
    destruct (is_empty_mapping body) eqn:Eb; [inversion H; left; eauto|].
    destruct (definitions self) as [defs|e] eqn:D; cbn [bind] in H;
      [|discriminate].
    destruct (first_valid validate self defs body) as [[name def]|] eqn:F.
    - unfold first_valid in F. apply find_some in F. destruct F as [Hin Hv].
      inversion H; subst. right. exists defs, name, def. auto.
    - destruct (dict_update_at "properties" _ d) as [d'|e] eqn:U;
        cbn [bind] in H; [|discriminate].
      inversion H; subst. left. exists d'. split; [reflexivity|]. split.
      + eapply dict_update_at_keys; eauto.
      + eapply dict_update_at_other; eauto. discriminate. }
  destruct (value_eqb_str ty "array" && dict_mem d "items").
  - destruct (py_len body) as [n|e]; cbn [bind] in H; [|discriminate].
    destruct (0 <? n); [|exact (Hobj H)].
    destruct (dict_update_at "items" _ d) as [d'|e] eqn:U;
      cbn [bind] in H; [|discriminate].
    inversion H; subst. left. exists d'. split; [reflexivity|]. split.
    + eapply dict_update_at_keys; eauto.
    + eapply dict_update_at_other; eauto. discriminate.
  - cbn [bind] in H. exact (Hobj H).
Qed.

Lemma match_references_node_outcome_witness :
  (exists d',
      VDict object_node = VDict d' /\ map fst d' = map fst object_node /\
      dict_get d' "type" = dict_get object_node "type") \/
  (exists defs name def,
      definitions (plain_generator "") = Ok defs /\ In (name, def) defs /\
      never_valid def (JObj [("a", JNum 1%Z)])
        (existing_schema (plain_generator "")) = true /\
      is_empty_mapping (JObj [("a", JNum 1%Z)]) = false /\
      VDict object_node = VDict [("$ref", VStr ("#/definitions/" ++ name))]).
Proof.
  apply (match_references_node_outcome never_valid (plain_generator "")
           object_node (JObj [("a", JNum 1%Z)])).
  reflexivity.
Defined.

(* ------------------------------------------------------------------ *)
(** ** Further properties: the schema of one path *)

Lemma find_rev_snoc {A : Type} (p : A -> bool) l a :
  find p (List.rev (l ++ [a])) = if p a then Some a else find p (List.rev l).
Proof. rewrite rev_app_distr. reflexivity. Qed.

Lemma generate_path_step_entry self p schema ex schema' :
  generate_path_step self p schema ex = Ok schema' ->
  exists op,
    schema' = dict_set schema (verb_of ex) op /\
    op_description op = str_or (description ex) "TODO" /\
    op_summary op = Some (str_or (summary ex) "") /\
    (forall d, default self = Some d ->
               dict_get (op_responses op) "default" = Some d).
Proof.
  unfold generate_path_step. intro H.
  match type of H with
  | bind ?m _ = _ => destruct m as [rp|e]; cbn [bind] in H; [|discriminate]
  end.
  inversion H; subst. eexists. split; [reflexivity|].
  split; [reflexivity|]. split; [reflexivity|].
  intros d Hd. simpl. rewrite Hd. apply dict_get_set_same.
Qed.

Lemma generate_path_loop_entries self p examples :
  forall seen schema out,
    (forall verb,
        match dict_get schema verb, last_of_verb seen verb with
        | Some op, Some ex =>
            op_description op = str_or (description ex) "TODO" /\
            op_summary op = Some (str_or (summary ex) "") /\
            (forall d, default self = Some d ->
                       dict_get (op_responses op) "default" = Some d)
        | None, None => True
        | _, _ => False
        end) ->
    generate_path_loop self p examples schema = Ok out ->
    forall verb,
      match dict_get out verb, last_of_verb (seen ++ examples) verb with
      | Some op, Some ex =>
          op_description op = str_or (description ex) "TODO" /\
          op_summary op = Some (str_or (summary ex) "") /\
          (forall d, default self = Some d ->
                     dict_get (op_responses op) "default" = Some d)
      | None, None => True
      | _, _ => False
      end.
Proof.
  induction examples as [|ex examples IH]; intros seen schema out Inv H.
  - simpl in H. inversion H; subst. rewrite app_nil_r. exact Inv.
  - simpl in H.
    destruct (generate_path_step self p schema ex) as [schema'|e] eqn:S;
      cbn [bind] in H; [|discriminate].
    destruct (generate_path_step_entry _ _ _ _ _ S)
      as [op [-> [Hdesc [Hsum Hdef]]]].
    replace (seen ++ ex :: examples) with ((seen ++ [ex]) ++ examples)
      by now rewrite <- app_assoc.
    eapply (IH (seen ++ [ex])); [|exact H].
    intro verb. unfold last_of_verb. rewrite find_rev_snoc.
    destruct (String.eqb (verb_of ex) verb) eqn:E.
    + apply String.eqb_eq in E. subst verb. rewrite dict_get_set_same. auto.
    + rewrite dict_get_set_other
        by (intro; subst; now rewrite String.eqb_refl in E).
      apply Inv.
Qed.

(** X19. When [_generate_path] returns, the schema has an entry for
    exactly the verbs (lower-cased methods) of the examples; the
    description and the summary of a verb are those of its last
    example, [TODO] and the empty string standing for missing ones; and
    when a default response is configured, every verb carries it. *)
Theorem generate_path_entries :
  forall (self : Generator) (p : string) (examples : list Example)
         (schema : list (string * Operation)),
    generate_path self p examples = Ok schema ->
    forall verb,
      match dict_get schema verb, last_of_verb examples verb with
      | Some op, Some ex =>
          op_description op = str_or (description ex) "TODO" /\
          op_summary op = Some (str_or (summary ex) "") /\
          (forall d, default self = Some d ->
                     dict_get (op_responses op) "default" = Some d)
      | None, None => True
      | _, _ => False
      end.
Proof.
  intros self p examples schema H verb.
  apply (generate_path_loop_entries self p examples [] [] schema); auto.
  intro v. reflexivity.
Qed.

Lemma generate_path_entries_witness :
  match dict_get
          [("get", {| op_responses := [];
                      op_description := "TODO";
                      op_summary := Some "";
                      op_parameters := Some [] |})] "get",
        last_of_verb [example_empty_in_response] "get" with
  | Some op, Some ex =>
      op_description op = str_or (description ex) "TODO" /\
      op_summary op = Some (str_or (summary ex) "") /\
      (forall d, default (plain_generator "") = Some d ->
                 dict_get (op_responses op) "default" = Some d)
  | None, None => True
  | _, _ => False
  end.
Proof.
  apply (generate_path_entries (plain_generator "") "/x"
           [example_empty_in_response]).
  reflexivity.
Defined.

(* Which exceptions the request side can raise. *)

Lemma param_in_not_empty p loc :
  param_in p loc <> Raise EmptyExampleArrayError.
Proof. unfold param_in, getitem. destruct (dict_get p "in"); discriminate. Qed.

Lemma param_name_not_empty p :
  param_name p <> Raise EmptyExampleArrayError.
Proof.
  unfold param_name, getitem.
  destruct (dict_get p "name") as [[s|b|e]|]; discriminate.
Qed.

Lemma query_params_by_name_not_empty params2 :
  forall acc, query_params_by_name params2 acc <> Raise EmptyExampleArrayError.
Proof.
  induction params2 as [|p ps IH]; intro acc; simpl; [discriminate|].
  pose proof (param_in_not_empty p "query") as Hq.
  destruct (param_in p "query") as [q|e]; cbn [bind]; [|congruence].
  destruct q; [|apply IH].
  pose proof (param_name_not_empty p) as Hn.
  destruct (param_name p) as [n|e]; cbn [bind]; [apply IH|congruence].
Qed.

Lemma merge_loop_not_empty params1 :
  forall q2, merge_loop params1 q2 <> Raise EmptyExampleArrayError.
Proof.
  induction params1 as [|p ps IH]; intro q2; simpl; [discriminate|].
  pose proof (param_in_not_empty p "query") as Hq.
  destruct (param_in p "query") as [q|e]; cbn [bind]; [|congruence].
  destruct q.
  - pose proof (param_name_not_empty p) as Hn.
    destruct (param_name p) as [n|e]; cbn [bind]; [|congruence].
    destruct (dict_mem q2 n).
    + pose proof (IH (dict_remove q2 n)) as H.
      destruct (merge_loop ps (dict_remove q2 n)); cbn [bind];
        [discriminate|congruence].
    + pose proof (IH q2) as H.
      destruct (merge_loop ps q2); cbn [bind]; [discriminate|congruence].
  - pose proof (IH q2) as H.
    destruct (merge_loop ps q2); cbn [bind]; [discriminate|congruence].
Qed.

Lemma merge_query_params_not_empty params1 params2 :
  merge_query_params params1 params2 <> Raise EmptyExampleArrayError.
Proof.
  unfold merge_query_params.
  pose proof (query_params_by_name_not_empty params2 []) as H1.
  destruct (query_params_by_name params2 []) as [q2|e]; cbn [bind];
    [|congruence].
  pose proof (merge_loop_not_empty params1 q2) as H2.
  destruct (merge_loop params1 q2); cbn [bind]; [discriminate|congruence].
Qed.

Lemma get_components_not_empty self p :
  get_components self p <> Raise EmptyExampleArrayError.
Proof.
  unfold get_components.
  repeat match goal with
         | |- context [match ?x with _ => _ end] => destruct x
         end; discriminate.
Qed.

Lemma In_fold_dict_set {V : Type} (items : list (string * V)) :
  forall acc kv,
    In kv (fold_left (fun a x => dict_set a (fst x) (snd x)) items acc) ->
    (exists k, In (k, snd kv) acc) \/ (exists k, In (k, snd kv) items).
Proof.
  induction items as [|[k0 v0] items IH]; intros acc kv H; simpl in H.
  - left. exists (fst kv). now destruct kv.
  - destruct (IH _ _ H) as [[k Hk]|[k Hk]].
    + assert (Hs : forall d, In (k, snd kv) (dict_set d k0 v0) ->
                        (exists k', In (k', snd kv) d) \/ snd kv = v0).
      { clear. induction d as [|[a x] d IHd]; simpl.
        - intros [H|[]]. inversion H. now right.
        - destruct (String.eqb k0 a).
          + intros [H|H]; [inversion H; now right|].
            left. exists k. now right.
          + intros [H|H]; [left; exists k; now left|].
            destruct (IHd H) as [[k' Hk']|Hv]; [|now right].
            left. exists k'. now right. }
      destruct (Hs acc Hk) as [Hacc|Hv]; [now left|].
      right. exists k0. left. now rewrite Hv.
    + right. exists k. now right.
Qed.

Lemma query_params_not_empty self items :
  Forall (fun kv => meets_empty_array (snd kv) = false) items ->
  forall acc, query_params self items acc <> Raise EmptyExampleArrayError.
Proof.
  induction 1 as [|[k v] items Hv _ IH]; intro acc; simpl; [discriminate|].
  simpl in Hv. pose proof (generate_type_params_trichotomy v) as T.
  rewrite Hv in T. destruct T as [t Ht]. rewrite Ht. cbn [bind].
  destruct (generate_type_params_keys _ _ Ht) as [entries [-> _]].
  cbn [value_items bind].
  destruct (negb _); apply IH.
Qed.

Lemma generate_request_params_not_empty self p request params :
  meets_empty_array (req_data request) = false ->
  Forall (fun kv => meets_empty_array (snd kv) = false) (query request) ->
  generate_request_params self p request params
  <> Raise EmptyExampleArrayError.
Proof.
  intros Hdata Hquery. unfold generate_request_params.
  assert (Hq : Forall (fun kv => meets_empty_array (snd kv) = false)
                      (get_request_query_params_with_data_type
                         (query request))).
  { apply Forall_forall. intros kv Hin.
    unfold get_request_query_params_with_data_type in Hin.
    destruct (In_fold_dict_set _ _ _ Hin) as [[k []]|[k Hk]].
    rewrite Forall_forall in Hquery. apply (Hquery _ Hk). }
  pose proof (query_params_not_empty self _ Hq []) as H1.
  destruct (query_params self _ []) as [qs|e]; cbn [bind]; [|congruence].
  pose proof (get_components_not_empty self p) as H2.
  destruct (get_components self p) as [cs|e]; cbn [bind]; [|congruence].
  pose proof (generate_schema_trichotomy (req_data request)) as T.
  rewrite Hdata in T. destruct T as [s Hs].
  assert (H3 : exists ps,
             (if truthy (req_data request)
              then
                let* schema := generate_schema (req_data request) in
                Ok (path_params 0 cs qs
                    ++ [[("name", VStr "body_data"); ("in", VStr "body");
                         ("schema", schema)]])
              else Ok (path_params 0 cs qs)) = Ok ps).
  { destruct (truthy (req_data request)); [rewrite Hs|]; eexists; reflexivity. }
  destruct H3 as [ps Hps]. rewrite Hps. cbn [bind].
  destruct params; [discriminate|apply merge_query_params_not_empty].
Qed.

(** X20. [_generate_path] raises [EmptyExampleArrayError] only through
    a request: when no example has an empty array along the traversal
    of its request body or of a query value, [_generate_path] does not
    raise it, whatever the response bodies are. *)
Theorem generate_path_raises_empty_array_only_for_requests :
  forall (self : Generator) (p : string) (examples : list Example),
    Forall (fun ex => request_free_of_empty_arrays ex = true) examples ->
    generate_path self p examples <> Raise EmptyExampleArrayError.
Proof.
  intros self p examples H. unfold generate_path. generalize (@nil (string * Operation)).
  induction H as [|ex examples Hex _ IH]; intro schema; simpl; [discriminate|].
  assert (Hstep : generate_path_step self p schema ex
                  <> Raise EmptyExampleArrayError).
  { unfold request_free_of_empty_arrays in Hex.
    apply andb_true_iff in Hex. destruct Hex as [Hd Hq].
    apply negb_true_iff in Hd.
    assert (Hq' : Forall (fun kv => meets_empty_array (snd kv) = false)
                         (query (request ex))).
    { apply Forall_forall. intros kv Hin. rewrite forallb_forall in Hq.
      apply negb_true_iff. now apply Hq. }
    unfold generate_path_step.
    destruct (String.eqb (content_type (response ex)) "application/json");
      [|discriminate].
    match goal with
    | |- context [generate_request_params self p (request ex) ?old] =>
        pose proof (generate_request_params_not_empty self p (request ex) old
                      Hd Hq') as Hr;
        destruct (generate_request_params self p (request ex) old) as [ps|e]
    end.
    - destruct (generate_response_params _ _) as [r|[]]; cbn [bind];
        discriminate.
    - destruct (generate_response_params _ _) as [r|[]]; cbn [bind];
        congruence. }
  destruct (generate_path_step self p schema ex) as [schema'|e]; cbn [bind];
    [apply IH|congruence].
Qed.

Lemma generate_path_raises_empty_array_only_for_requests_witness :
  generate_path (plain_generator "") "/x" [example_empty_in_response]
  <> Raise EmptyExampleArrayError.
Proof.
  apply generate_path_raises_empty_array_only_for_requests.
  repeat constructor.
Defined.

(* ------------------------------------------------------------------ *)
(** ** Further properties: the example store *)

Lemma stored_under_append store q ex p :
  stored_under (store_append store q ex) p
  = if String.eqb p q then stored_under store q ++ [ex]
    else stored_under store p.
Proof.
  unfold store_append, stored_under.
  destruct (String.eqb p q) eqn:E.
  - apply String.eqb_eq in E. subst p.
    destruct (dict_get store q); now rewrite dict_get_set_same.
  - apply String.eqb_neq in E.
    destruct (dict_get store q); now rewrite dict_get_set_other.
Qed.

Lemma store_append_distinct store q ex :
  distinct (map fst store) = true ->
  distinct (map fst (store_append store q ex)) = true.
Proof.
  intro H. unfold store_append.
  destruct (dict_get store q); now apply distinct_dict_set.
Qed.

Lemma provide_examples_without_schema self examples :
  existing_schema self = [] ->
  forall store,
    distinct (map fst store) = true ->
    exists store',
      provide_examples self store examples = Ok store' /\
      distinct (map fst store') = true /\
      forall p,
        stored_under store' p
        = stored_under store p
          ++ filter (fun ex => String.eqb (path (response ex)) p) examples.
Proof.
  intro Hempty. induction examples as [|ex examples IH]; intros store Hd.
  - exists store. simpl. split; [reflexivity|]. split; [assumption|].
    intro p. now rewrite app_nil_r.
  - simpl. unfold provide_example. rewrite Hempty. cbn [bind].
    destruct (IH _ (store_append_distinct store (path (response ex)) ex Hd))
      as [store' [Hs [Hd' Hp]]].
    exists store'. split; [exact Hs|]. split; [exact Hd'|].
    intro p. rewrite Hp, stored_under_append. rewrite String.eqb_sym.
    destruct (String.eqb (path (response ex)) p) eqn:E.
    + apply String.eqb_eq in E. subst p. now rewrite <- app_assoc.
    + reflexivity.
Qed.

(** X21. Without an existing schema, [provide_example] never raises
    and never drops or deduplicates: after any sequence of calls the
    store has pairwise distinct paths, and under each raw path exactly
    the examples provided with that path, in the order of the calls. *)
Theorem store_groups_examples_by_raw_path :
  forall (self : Generator) (examples : list Example),
    existing_schema self = [] ->
    exists store,
      provide_examples self [] examples = Ok store /\
      distinct (map fst store) = true /\
      forall p,
        stored_under store p
        = filter (fun ex => String.eqb (path (response ex)) p) examples.
Proof.
  intros self examples H.
  destruct (provide_examples_without_schema self examples H [] eq_refl)
    as [store [Hs [Hd Hp]]].
  exists store. split; [exact Hs|]. split; [exact Hd|].
  intro p. now rewrite Hp.
Qed.

Lemma store_groups_examples_by_raw_path_witness :
  exists store,
    provide_examples (plain_generator "") []
      [example_users_1; example_items_a1; example_users_1] = Ok store /\
    distinct (map fst store) = true /\
    forall p,
      stored_under store p
      = filter (fun ex => String.eqb (path (response ex)) p)
               [example_users_1; example_items_a1; example_users_1].
Proof.
  apply store_groups_examples_by_raw_path. reflexivity.
Defined.




(* ------------------------------------------------------------------ *)
(** ** Further properties: the final pass of [generate_paths] *)

Section FinalPassWithoutValidDefinition.

Variable validate : value -> json -> pdict -> bool.
Variable self : Generator.

Hypothesis none_validates :
  forall defs nd body,
    definitions self = Ok defs -> In nd defs ->
    validate (snd nd) body (existing_schema self) = false.

Lemma match_param_unchanged example param param' :
  match_param validate self example param = Ok param' -> param' = param.
Proof.
  unfold match_param. intro H.
  destruct (param_in param "body") as [b|e]; cbn [bind] in H; [|discriminate].
  destruct b; [|now inversion H].
  unfold getitem in H.
  destruct (dict_get param "schema") as [s|] eqn:G; cbn [bind] in H;
    [|discriminate].
  destruct (match_references validate self s _) as [s'|e] eqn:M;
    cbn [bind] in H; [|discriminate].
  inversion H; subst.
  rewrite (match_references_without_valid_definition_aux
             validate self none_validates _ _ _ M).
  now apply dict_set_same_value.
Qed.

Lemma match_example_unchanged schema example schema' :
  match_example validate self schema example = Ok schema' -> schema' = schema.
Proof.
  unfold match_example. intro H. unfold getitem in H.
  destruct (dict_get schema _) as [op|] eqn:Gop; cbn [bind] in H;
    [|discriminate].
  destruct (dict_mem (op_responses op) _); [|now inversion H].
  destruct (dict_get (op_responses op) _) as [resp|] eqn:Gr; cbn [bind] in H;
    [|discriminate].
  destruct resp as [s|b|e]; cbn [value_getitem] in H; try discriminate.
  unfold getitem in H.
  destruct (dict_get e "schema") as [rs|] eqn:Gs; cbn [bind] in H;
    [|discriminate].
  destruct (match_references validate self rs _) as [rs'|err] eqn:M;
    cbn [bind] in H; [|discriminate].
  rewrite (match_references_without_valid_definition_aux
             validate self none_validates _ _ _ M) in H.
  cbn [Paths.setitem bind] in H.
  destruct (op_parameters op) as [ps|] eqn:Gp; cbn [bind] in H;
    [|discriminate].
  destruct (map_result _ ps) as [matched|err] eqn:Mp; cbn [bind] in H;
    [|discriminate].
  assert (matched = ps).
  { apply (map_result_unchanged _ _ _ Mp). apply Forall_forall.
    intros param _ param'. apply match_param_unchanged. }
  subst matched. inversion H; subst. clear H.
  rewrite (dict_set_same_value e "schema" rs Gs).
  rewrite (dict_set_same_value (op_responses op) _ _ Gr).
  apply dict_set_same_value. rewrite Gop. f_equal.
  destruct op; simpl in *. now subst.
Qed.

Lemma match_examples_unchanged examples :
  forall schema schema',
    match_examples validate self schema examples = Ok schema' ->
    schema' = schema.
Proof.
  induction examples as [|ex examples IH]; intros schema schema' H;
    simpl in H.
  - now inversion H.
  - destruct (match_example validate self schema ex) as [s1|e] eqn:M;
      cbn [bind] in H; [|discriminate].
    apply match_example_unchanged in M. subst s1. now apply IH.
Qed.

End FinalPassWithoutValidDefinition.

(** X23. When no definition validates (in particular without an
    existing schema), the final pass of [generate_paths] changes
    nothing: whenever [generate_paths] returns, its result is the list
    of the schemas [_generate_path] built for the merged paths. *)
Theorem generate_paths_without_valid_definition :
  forall (validate : value -> json -> pdict -> bool) (self : Generator)
         (path_to_examples : list (string * list Example))
         (out : list (string * list (string * Operation))),
    (forall defs nd b,
        definitions self = Ok defs -> In nd defs ->
        validate (snd nd) b (existing_schema self) = false) ->
    generate_paths validate self path_to_examples = Ok out ->
    exists valid_examples,
      merge_examples self path_to_examples = Ok valid_examples /\
      map_result
        (fun pe : string * list Example =>
           let* schema := generate_path self (fst pe) (snd pe) in
           Ok (fst pe, schema))
        valid_examples = Ok out.
Proof.
  intros validate self pte out Hnone H. unfold generate_paths in H.
  destruct (merge_examples self pte) as [valid|e]; cbn [bind] in H;
    [|discriminate].
  exists valid. split; [reflexivity|].
  destruct (map_result _ valid) as [schemas|e]; cbn [bind] in H;
    [|discriminate].
  f_equal. symmetry. apply (map_result_unchanged _ _ _ H).
  apply Forall_forall. intros [p schema] _ [p' schema'] Hf. simpl in Hf.
  destruct (getitem valid p) as [exs|e]; cbn [bind] in Hf; [|discriminate].
  destruct (match_examples validate self schema exs) as [s|e] eqn:M;
    cbn [bind] in Hf; [|discriminate].
  inversion Hf; subst.
  now rewrite (match_examples_unchanged validate self Hnone _ _ _ M).
Qed.

Lemma generate_paths_without_valid_definition_witness :
  exists valid_examples,
    merge_examples (plain_generator "") [("/x", [example_a_number])]
    = Ok valid_examples /\
    map_result
      (fun pe : string * list Example =>
         let* schema := generate_path (plain_generator "") (fst pe) (snd pe) in
         Ok (fst pe, schema))
      valid_examples
    = generate_paths never_valid (plain_generator "")
        [("/x", [example_a_number])].
Proof.
  destruct (generate_paths never_valid (plain_generator "")
              [("/x", [example_a_number])]) as [out|e] eqn:G;
    [|vm_compute in G; discriminate G].
  apply (generate_paths_without_valid_definition
           never_valid (plain_generator "") _ out); [reflexivity|exact G].
Defined.
